(** * PRESENT-80 on the Raspberry Pi: scalar and bit-sliced encryption

    A shallow embedding of the two [crypto.c] files of the repository (the
    byte-oriented reference and the 32-way bit-sliced variant in
    [present_bs/]) and the properties their description states about them.

    Machine integers are modelled as [Z] with the truncation of every store
    written out ([u8], [u32]); C arrays are lists read with [get] and written
    with [upd]; the counted [for] loops are folds over their index range. *)

From Stdlib Require Import ZArith List Lia Bool Permutation.
Import ListNotations.
Local Open Scope Z_scope.

(** ** Constants of [crypto.h] *)

(** Modelled from the spec: [crypto.h] is not among the sources; the block
    size in bytes is 8. *)
Definition CRYPTO_IN_SIZE : nat := 8.

(** Modelled from the spec: [crypto.h] is not among the sources; the key size
    in bytes is 10. *)
Definition CRYPTO_KEY_SIZE : nat := 10.

(** Modelled from the spec: [crypto.h] is not among the sources; the state
    has 64 bit positions (8 bytes of 8 bits). *)
Definition CRYPTO_IN_SIZE_BIT : nat := 64.

(** Modelled from the spec: [crypto.h] is not among the sources; the parallel
    width is 32, the width of the bit-sliced register [bs_reg_t]. The code
    fixes it: [BS_INV] and the key-mixing mask are [0xFFFFFFFF], and the
    comments of [sbox_layer] and [pbox_layer] speak of "all 32 bits" and
    "all 32 states". *)
Definition BITSLICE_WIDTH : nat := 32.

(** ** Machine integers and arrays *)

(** Truncation on a store to [uint8_t] and to [bs_reg_t] (a 32-bit word). *)
Definition u8 (x : Z) : Z := x mod 256.
Definition u32 (x : Z) : Z := x mod 2 ^ 32.

Definition is_u8 (x : Z) : Prop := 0 <= x < 256.
Definition is_u32 (x : Z) : Prop := 0 <= x < 2 ^ 32.

(** [a[i]] and [a[i] = v]; an index past the end reads 0 and writes nothing
    (the C code never produces one on buffers of the declared sizes). *)
Definition get (a : list Z) (i : nat) : Z := nth i a 0.

Fixpoint upd (a : list Z) (i : nat) (v : Z) : list Z :=
  match a, i with
  | [], _ => []
  | _ :: t, O => v :: t
  | h :: t, S j => h :: upd t j v
  end.

(** [for (i = lo; i < lo + n; i++) body] threading the state [s]. *)
Definition for_range {S : Type} (lo n : nat) (body : nat -> S -> S) (s : S) : S :=
  fold_left (fun st i => body i st) (seq lo n) s.

(** Shifts by a loop index. *)
Definition shl (x : Z) (k : nat) : Z := Z.shiftl x (Z.of_nat k).
Definition shr (x : Z) (k : nat) : Z := Z.shiftr x (Z.of_nat k).

(** The S-box table, shared by both files (file-level in the scalar one,
    local to [update_round_key] in the bit-sliced one). *)
Definition sbox_table : list Z :=
  [0xC; 0x5; 0x6; 0xB; 0x9; 0x0; 0xA; 0xD; 0x3; 0xE; 0xF; 0x8; 0x4; 0x7; 0x1; 0x2].

(** ** The key schedule, identical text in both files *)

Module KeySchedule.

Section WithTable.
Variable sbox : list Z.

(** "rotate right by 19 bit" *)
Definition rotate_step (key : list Z) : list Z :=
  let tmp2 := get key 2 in
  let tmp1 := get key 1 in
  let tmp0 := get key 0 in
  let key := upd key 0 (u8 (Z.lor (Z.shiftr (get key 2) 3) (Z.shiftl (get key 3) 5))) in
  let key := upd key 1 (u8 (Z.lor (Z.shiftr (get key 3) 3) (Z.shiftl (get key 4) 5))) in
  let key := upd key 2 (u8 (Z.lor (Z.shiftr (get key 4) 3) (Z.shiftl (get key 5) 5))) in
  let key := upd key 3 (u8 (Z.lor (Z.shiftr (get key 5) 3) (Z.shiftl (get key 6) 5))) in
  let key := upd key 4 (u8 (Z.lor (Z.shiftr (get key 6) 3) (Z.shiftl (get key 7) 5))) in
  let key := upd key 5 (u8 (Z.lor (Z.shiftr (get key 7) 3) (Z.shiftl (get key 8) 5))) in
  let key := upd key 6 (u8 (Z.lor (Z.shiftr (get key 8) 3) (Z.shiftl (get key 9) 5))) in
  let key := upd key 7 (u8 (Z.lor (Z.shiftr (get key 9) 3) (Z.shiftl tmp0 5))) in
  let key := upd key 8 (u8 (Z.lor (Z.shiftr tmp0 3) (Z.shiftl tmp1 5))) in
  let key := upd key 9 (u8 (Z.lor (Z.shiftr tmp1 3) (Z.shiftl tmp2 5))) in
  key.

(** "perform sbox lookup on MSbits" *)
Definition sbox_step (key : list Z) : list Z :=
  let tmp := get sbox (Z.to_nat (Z.shiftr (get key 9) 4)) in
  let key := upd key 9 (u8 (Z.land (get key 9) 0x0F)) in
  let key := upd key 9 (u8 (Z.lor (get key 9) (Z.shiftl tmp 4))) in
  key.

(** "XOR round counter k19 ... k15" *)
Definition counter_step (key : list Z) (r : Z) : list Z :=
  let key := upd key 1 (u8 (Z.lxor (get key 1) (Z.shiftl r 7))) in
  let key := upd key 2 (u8 (Z.lxor (get key 2) (Z.shiftr r 1))) in
  key.

Definition update_round_key (key : list Z) (r : Z) : list Z :=
  counter_step (sbox_step (rotate_step key)) r.
End WithTable.

End KeySchedule.

(** ** The scalar implementation *)

Module Scalar.

Definition getbit (v : Z) (bit : nat) : Z := Z.land (shr v bit) 0x1.

Definition cpybit (v : Z) (bit : nat) (bitv : Z) : Z :=
  let mask := u8 (Z.lnot (shl 1 bit)) in
  let v := u8 (Z.land v mask) in
  u8 (Z.lor v (shl bitv bit)).

(** [roundkey] is the pointer [key + 2] at every call site. *)
Definition add_round_key (pt roundkey : list Z) : list Z :=
  for_range 0 8 (fun i pt => upd pt i (u8 (Z.lxor (get pt i) (get roundkey i)))) pt.

Definition sbox : list Z := sbox_table.

Definition sbox_layer (s : list Z) : list Z :=
  for_range 0 8 (fun i s =>
    let ln := u8 (Z.land (get s i) 0xf) in
    let un := u8 (Z.shiftr (get s i) 4) in
    upd s i (u8 (Z.lor (get sbox (Z.to_nat ln))
                       (Z.shiftl (get sbox (Z.to_nat un)) 4)))) s.

(** "compute the permuted position" *)
Definition pbox_pos (b : nat) : nat := (b / 4 + (b mod 4) * 16)%nat.

Definition pbox_layer (s : list Z) : list Z :=
  let state_out := repeat 0 8 in
  let state_out :=
    for_range 0 64 (fun b state_out =>
      let val := getbit (get s (b / 8)) (b mod 8) in
      let out := pbox_pos b in
      upd state_out (out / 8) (cpybit (get state_out (out / 8)) (out mod 8) val))
      state_out in
  for_range 0 8 (fun i s => upd s i (get state_out i)) s.

Definition update_round_key : list Z -> Z -> list Z :=
  KeySchedule.update_round_key sbox.

(** One pass of the body of the [for] loop of [crypto_func]. *)
Definition round (i : nat) (st : list Z * list Z) : list Z * list Z :=
  let '(pt, key) := st in
  let pt := add_round_key pt (skipn 2 key) in
  let pt := sbox_layer pt in
  let pt := pbox_layer pt in
  let key := update_round_key key (Z.of_nat i) in
  (pt, key).

(** [crypto_func(pt, key)]: both buffers are updated in place, so the
    function returns the pair of their final contents. *)
Definition crypto_func (pt key : list Z) : list Z * list Z :=
  let '(pt, key) := for_range 1 31 round (pt, key) in
  let pt := add_round_key pt (skipn 2 key) in
  (pt, key).

End Scalar.

(** ** The bit-sliced implementation ([present_bs/crypto.c]) *)

Module Bitsliced.

(** [state_bs] is the output array; every entry of it is overwritten. *)
Definition enslice (pt state_bs : list Z) : list Z :=
  for_range 0 CRYPTO_IN_SIZE_BIT (fun i state_bs =>
    let temp :=
      for_range 0 BITSLICE_WIDTH (fun bit temp =>
        u32 (Z.lor temp
               (shl (Z.land (shr (get pt (i / 8 + bit * 8)) (i mod 8)) 1) bit)))
        0 in
    upd state_bs i temp) state_bs.

(** [pt] is the output array; every entry of it is overwritten. *)
Definition unslice (state_bs pt : list Z) : list Z :=
  for_range 0 (CRYPTO_IN_SIZE * BITSLICE_WIDTH) (fun i pt =>
    let temp :=
      for_range 0 8 (fun bit temp =>
        u8 (Z.lor temp
              (shl (Z.land
                      (shr (get state_bs ((i * 8) mod CRYPTO_IN_SIZE_BIT + bit)) (i / 8))
                      1) bit)))
        0 in
    upd pt i temp) pt.

Definition BS_INV : Z := 0xFFFFFFFF.

Definition sbox0 (x0 x1 x2 x3 : Z) : Z :=
  u32 (Z.lxor (Z.lxor (Z.lxor x0 (Z.land x1 x2)) x2) x3).

Definition sbox1 (x0 x1 x2 x3 : Z) : Z :=
  let c := u32 (Z.land x2 x3) in
  u32 (Z.lxor (Z.lxor (Z.lxor (Z.lxor (Z.lxor
         (Z.land (Z.land x0 x1) (Z.lxor x2 x3))
         (Z.land x3 x1)) x1) (Z.land x0 c)) c) x3).

Definition sbox2 (x0 x1 x2 x3 : Z) : Z :=
  let c := u32 (Z.land x0 x3) in
  u32 (Z.lxor (Z.lxor (Z.lxor (Z.lxor (Z.lxor (Z.lxor (Z.lxor
         (Z.land x0 x1)
         (Z.land c x1)) (Z.land x3 x1)) x2) c) (Z.land c x2)) x3) BS_INV).

Definition sbox3 (x0 x1 x2 x3 : Z) : Z :=
  let c := u32 (Z.land x1 x2) in
  u32 (Z.lxor (Z.lxor (Z.lxor (Z.lxor (Z.lxor (Z.lxor
         (Z.land c x0)
         (Z.land (Z.land x3 x0) (Z.lxor x1 x2))) x0) x1) c) x3) BS_INV).

(** [roundkey] is the pointer [key + 2] at every call site. *)
Definition add_round_key (state_bs roundkey : list Z) : list Z :=
  for_range 0 CRYPTO_IN_SIZE_BIT (fun bit state_bs =>
    let key_bit :=
      u8 (Z.land (shr (get roundkey (bit / CRYPTO_IN_SIZE)) (bit mod CRYPTO_IN_SIZE)) 1) in
    upd state_bs bit
      (u32 (Z.lxor (get state_bs bit) (if key_bit =? 0 then 0 else 0xFFFFFFFF))))
    state_bs.

Definition sbox_layer (state_bs : list Z) : list Z :=
  let state_out := repeat 0 CRYPTO_IN_SIZE_BIT in
  let state_out :=
    for_range 0 16 (fun i state_out =>
      let in0 := get state_bs (i * 4 + 0) in
      let in1 := get state_bs (i * 4 + 1) in
      let in2 := get state_bs (i * 4 + 2) in
      let in3 := get state_bs (i * 4 + 3) in
      let state_out := upd state_out (i * 4 + 0) (sbox0 in0 in1 in2 in3) in
      let state_out := upd state_out (i * 4 + 1) (sbox1 in0 in1 in2 in3) in
      let state_out := upd state_out (i * 4 + 2) (sbox2 in0 in1 in2 in3) in
      let state_out := upd state_out (i * 4 + 3) (sbox3 in0 in1 in2 in3) in
      state_out) state_out in
  for_range 0 CRYPTO_IN_SIZE_BIT (fun i state_bs => upd state_bs i (get state_out i))
    state_bs.

(** "compute the permuted position" *)
Definition pbox_pos (bit : nat) : nat := (bit / 4 + (bit mod 4) * 16)%nat.

Definition pbox_layer (state_bs : list Z) : list Z :=
  let state_out := repeat 0 CRYPTO_IN_SIZE_BIT in
  let state_out :=
    for_range 0 CRYPTO_IN_SIZE_BIT (fun bit state_out =>
      let out := pbox_pos bit in
      upd state_out out (get state_bs bit)) state_out in
  for_range 0 CRYPTO_IN_SIZE_BIT (fun i state_bs => upd state_bs i (get state_out i))
    state_bs.

(** The table is a local constant of [update_round_key] in this file. *)
Definition sbox : list Z := sbox_table.

Definition update_round_key : list Z -> Z -> list Z :=
  KeySchedule.update_round_key sbox.

(** One pass of the body of the [for] loop of [crypto_func]. *)
Definition round (i : nat) (st : list Z * list Z) : list Z * list Z :=
  let '(state, key) := st in
  let state := add_round_key state (skipn 2 key) in
  let state := sbox_layer state in
  let state := pbox_layer state in
  let key := update_round_key key (Z.of_nat i) in
  (state, key).

(** [crypto_func(pt, key)]; the local [state] array starts with arbitrary
    contents [state0], all of which [enslice] overwrites. *)
Definition crypto_func_from (state0 pt key : list Z) : list Z * list Z :=
  let state := enslice pt state0 in
  let '(state, key) := for_range 1 31 round (state, key) in
  let state := add_round_key state (skipn 2 key) in
  let pt := unslice state pt in
  (pt, key).

Definition crypto_func (pt key : list Z) : list Z * list Z :=
  crypto_func_from (repeat 0 CRYPTO_IN_SIZE_BIT) pt key.

End Bitsliced.

(** ** Definitions used to state and prove the properties *)

(** A loop whose pass [i] rewrites cell [i] from its own old content. *)
Definition cellwise (f : nat -> Z -> Z) (n : nat) (s : list Z) : list Z :=
  for_range 0 n (fun i s => upd s i (f i (get s i))) s.

(** The inner loops of [enslice] and [unslice]: bit [bit] of the result is
    bit 0 of [g bit]; [tr] is the truncation of the store. *)
Definition gather (tr : Z -> Z) (g : nat -> Z) (n : nat) : Z :=
  for_range 0 n (fun bit temp => tr (Z.lor temp (shl (Z.land (g bit) 1) bit))) 0.

Definition bytes_ok (n : nat) (a : list Z) : Prop :=
  length a = n /\ Forall is_u8 a.

Definition planes_ok (a : list Z) : Prop :=
  length a = 64%nat /\ Forall is_u32 a.

(** Bit [n] of a byte array read as a little-endian integer. *)
Definition bit_of (s : list Z) (n : nat) : bool :=
  Z.testbit (get s (n / 8)) (Z.of_nat (n mod 8)).

(** Bit [i] of lane [j] of a bit-sliced state. *)
Definition pbit (st : list Z) (i j : nat) : bool :=
  Z.testbit (get st i) (Z.of_nat j).

(** The table entry selected by four input bits, least significant first. *)
Definition sbox_of_bits (b0 b1 b2 b3 : bool) : Z :=
  get sbox_table
    (Z.to_nat (Z.b2z b0 + 2 * Z.b2z b1 + 4 * Z.b2z b2 + 8 * Z.b2z b3)).

(** Source position of destination [p] under the bit permutation. *)
Definition pbox_inv (p : nat) : nat := ((p mod 16) * 4 + p / 16)%nat.

(** What [sbox_layer] stores in a cell holding [x]. *)
Definition sbox_byte (x : Z) : Z :=
  u8 (Z.lor (get Scalar.sbox (Z.to_nat (u8 (Z.land x 0xf))))
            (Z.shiftl (get Scalar.sbox (Z.to_nat (u8 (Z.shiftr x 4)))) 4)).

(** The first loop of the scalar [pbox_layer] after [n] passes. *)
Definition scalar_pbox_out (s : list Z) (n : nat) : list Z :=
  for_range 0 n (fun b state_out =>
    let val := Scalar.getbit (get s (b / 8)) (b mod 8) in
    let out := Scalar.pbox_pos b in
    upd state_out (out / 8)
      (Scalar.cpybit (get state_out (out / 8)) (out mod 8) val))
    (repeat 0 8).

(** What the bit-sliced [add_round_key] XORs into plane [bit]. *)
Definition key_mask (roundkey : list Z) (bit : nat) : Z :=
  if u8 (Z.land (shr (get roundkey (bit / CRYPTO_IN_SIZE)) (bit mod CRYPTO_IN_SIZE)) 1) =? 0
  then 0 else 0xFFFFFFFF.

(** The four boolean functions, selected by output bit. *)
Definition sbox_fn (k : nat) : Z -> Z -> Z -> Z -> Z :=
  match k with
  | 0%nat => Bitsliced.sbox0
  | 1%nat => Bitsliced.sbox1
  | 2%nat => Bitsliced.sbox2
  | _ => Bitsliced.sbox3
  end.

(** The first loop of the bit-sliced [sbox_layer] after [n] passes. *)
Definition bitsliced_sbox_out (state_bs : list Z) (n : nat) : list Z :=
  for_range 0 n (fun i state_out =>
    let in0 := get state_bs (i * 4 + 0) in
    let in1 := get state_bs (i * 4 + 1) in
    let in2 := get state_bs (i * 4 + 2) in
    let in3 := get state_bs (i * 4 + 3) in
    let state_out := upd state_out (i * 4 + 0) (Bitsliced.sbox0 in0 in1 in2 in3) in
    let state_out := upd state_out (i * 4 + 1) (Bitsliced.sbox1 in0 in1 in2 in3) in
    let state_out := upd state_out (i * 4 + 2) (Bitsliced.sbox2 in0 in1 in2 in3) in
    let state_out := upd state_out (i * 4 + 3) (Bitsliced.sbox3 in0 in1 in2 in3) in
    state_out) (repeat 0 64).

(** The first loop of the bit-sliced [pbox_layer] after [n] passes. *)
Definition bitsliced_pbox_out (state_bs : list Z) (n : nat) : list Z :=
  for_range 0 n (fun bit state_out =>
    let out := Bitsliced.pbox_pos bit in
    upd state_out out (get state_bs bit)) (repeat 0 64).

(** Lane [j] of the bit-sliced state [st] holds the scalar state [nth j blocks]. *)
Definition sim (blocks : list (list Z)) (st : list Z) : Prop :=
  length st = 64%nat
  /\ forall i j, (i < 64)%nat -> (j < 32)%nat ->
       pbit st i j = bit_of (nth j blocks []) i.

Definition len8 (b : list Z) : Prop := length b = 8%nat.

(** The key register after the first [n] passes of the loop. *)
Definition key_after (n : nat) (key : list Z) : list Z :=
  for_range 1 n (fun i key => KeySchedule.update_round_key sbox_table key (Z.of_nat i)) key.

(** The scalar block after the first [n] passes of the loop. *)
Definition scalar_after (n : nat) (pt key : list Z) : list Z :=
  fst (for_range 1 n Scalar.round (pt, key)).

(** The bit-sliced state after the first [n] passes of the loop. *)
Definition bitsliced_after (n : nat) (state key : list Z) : list Z :=
  fst (for_range 1 n Bitsliced.round (state, key)).

(** The value of a byte array, least significant byte first: [key[0]] is
    the low byte of the register and [key[9]] its high byte. *)
Fixpoint le_bytes (l : list Z) : Z :=
  match l with
  | [] => 0
  | b :: t => Z.lor b (Z.shiftl (le_bytes t) 8)
  end.

(** Rotations of a [w]-bit integer. *)
Definition rotr (w x k : Z) : Z := (Z.lor (Z.shiftr x k) (Z.shiftl x (w - k))) mod 2 ^ w.
Definition rotl (w x k : Z) : Z := (Z.lor (Z.shiftl x k) (Z.shiftr x (w - k))) mod 2 ^ w.

(** One byte of the rotated register. *)
Definition rot_byte (a b : Z) : Z := u8 (Z.lor (Z.shiftr a 3) (Z.shiftl b 5)).

(** The round orchestrator as the description words it: a state machine over
    the states ROUND 1 .. ROUND 31 and FINAL, generic in the state
    representation and in the four layer operations. *)
Section Orchestrator.
Variable State : Type.
Variable mix : State -> list Z -> State.
Variables substitute permute : State -> State.
Variable advance : list Z -> Z -> list Z.

(** States [ROUND 1] .. [ROUND 31] and [FINAL], and the terminal state. *)
Inductive orch : Type :=
| ROUND (i : nat) (s : State) (key : list Z)
| FINAL (s : State) (key : list Z)
| DONE (s : State) (key : list Z).

(** mix round key, substitute, permute, advance the key schedule,
    increment the round counter; after round 31, one last mixing. *)
Definition orch_step (o : orch) : orch :=
  match o with
  | ROUND i s key =>
      let s := permute (substitute (mix s key)) in
      let key := advance key (Z.of_nat i) in
      if (i <? 31)%nat then ROUND (S i) s key else FINAL s key
  | FINAL s key => DONE (mix s key) key
  | DONE s key => DONE s key
  end.

Fixpoint orch_run (n : nat) (o : orch) : orch :=
  match n with
  | O => o
  | S n => orch_run n (orch_step o)
  end.

(** The loop body the machine's [ROUND] transition stands for. *)
Definition orch_round (i : nat) (st : State * list Z) : State * list Z :=
  (permute (substitute (mix (fst st) (snd st))), advance (snd st) (Z.of_nat i)).

End Orchestrator.

Arguments ROUND {State} i s key.
Arguments FINAL {State} s key.
Arguments DONE {State} s key.

(** The scalar and the bit-sliced instance of the machine. *)
Definition scalar_machine : nat -> orch (list Z) -> orch (list Z) :=
  orch_run (list Z) (fun s key => Scalar.add_round_key s (skipn 2 key))
    Scalar.sbox_layer Scalar.pbox_layer Scalar.update_round_key.

Definition bitsliced_machine : nat -> orch (list Z) -> orch (list Z) :=
  orch_run (list Z) (fun s key => Bitsliced.add_round_key s (skipn 2 key))
    Bitsliced.sbox_layer Bitsliced.pbox_layer Bitsliced.update_round_key.

(** Deciders for the well-formedness of concrete buffers. *)
Definition is_u8b (x : Z) : bool := (0 <=? x) && (x <? 256).
Definition is_u32b (x : Z) : bool := (0 <=? x) && (x <? 2 ^ 32).
Definition bytes_okb (n : nat) (a : list Z) : bool :=
  (length a =? n)%nat && forallb is_u8b a.
Definition planes_okb (a : list Z) : bool :=
  (length a =? 64)%nat && forallb is_u32b a.

(** Concrete buffers used to instantiate the statements below. *)
Definition sample_blocks : list (list Z) :=
  map (fun j => map (fun i => Z.of_nat ((37 * j + 11 * i + i * i * j) mod 256)) (seq 0 8))
    (seq 0 32).
Definition sample_key : list Z := [0x01; 0x23; 0x45; 0x67; 0x89; 0xAB; 0xCD; 0xEF; 0x10; 0x32].
Definition sample_planes : list Z :=
  map (fun i => ((Z.of_nat i * Z.of_nat i * 65599 + 7 * Z.of_nat i) * 40503) mod 2 ^ 32)
    (seq 0 64).

(** ** Proof automation *)

(** Quotient and remainder facts for [lia]. *)
Ltac divmod_facts a b :=
  pose proof (Nat.div_mod_eq a b); pose proof (Nat.mod_upper_bound a b).

(** A comparison that holds by linear arithmetic. *)
Ltac ltb_holds a b :=
  replace (a <? b)%nat with true by (symmetry; apply Nat.ltb_lt; lia).

(** ** Published test vectors *)

(** Published test vectors of PRESENT-80 (least significant byte first). *)
Example scalar_kat_zero :
  fst (Scalar.crypto_func (repeat 0 8) (repeat 0 10))
  = [0x45; 0x84; 0x22; 0x7B; 0x38; 0xC1; 0x79; 0x55].
Proof. vm_compute. reflexivity. Qed.

Example scalar_kat_ones_key :
  fst (Scalar.crypto_func (repeat 0 8) (repeat 255 10))
  = [0x49; 0x50; 0x94; 0xF5; 0xC0; 0x46; 0x2C; 0xE7].
Proof. vm_compute. reflexivity. Qed.

Example scalar_kat_ones_block :
  fst (Scalar.crypto_func (repeat 255 8) (repeat 0 10))
  = [0x7B; 0x41; 0x68; 0x2F; 0xC7; 0xFF; 0x12; 0xA1].
Proof. vm_compute. reflexivity. Qed.

Example scalar_kat_ones_both :
  fst (Scalar.crypto_func (repeat 255 8) (repeat 255 10))
  = [0xD2; 0x10; 0x32; 0x21; 0xD3; 0xDC; 0x33; 0x33].
Proof. vm_compute. reflexivity. Qed.

Example bitsliced_kat_zero :
  fst (Bitsliced.crypto_func (repeat 0 256) (repeat 0 10))
  = concat (repeat [0x45; 0x84; 0x22; 0x7B; 0x38; 0xC1; 0x79; 0x55] 32).
Proof. vm_compute. reflexivity. Qed.

Example bitsliced_two_kinds :
  fst (Bitsliced.crypto_func (repeat 255 8 ++ repeat 0 248) (repeat 0 10))
  = [0x7B; 0x41; 0x68; 0x2F; 0xC7; 0xFF; 0x12; 0xA1]
    ++ concat (repeat [0x45; 0x84; 0x22; 0x7B; 0x38; 0xC1; 0x79; 0x55] 31).
Proof. vm_compute. reflexivity. Qed.

(** ** Arrays and loops *)

Lemma length_upd a i v : length (upd a i v) = length a.
Proof.
  revert i; induction a as [|h t IH]; intros [|i]; simpl; auto.
Qed.

Lemma get_upd a i v j :
  get (upd a i v) j = if ((i =? j) && (i <? length a))%nat then v else get a j.
Proof.
  unfold get. revert i j; induction a as [|h t IH]; intros [|i] [|j]; simpl; auto.
  destruct (i =? j)%nat; reflexivity.
Qed.

Lemma get_upd_other a i v j : i <> j -> get (upd a i v) j = get a j.
Proof.
  intros H. rewrite get_upd. apply Nat.eqb_neq in H. rewrite H. reflexivity.
Qed.

Lemma get_overflow a i : (length a <= i)%nat -> get a i = 0.
Proof. intros H. unfold get. apply nth_overflow. exact H. Qed.

Lemma list_ext (a b : list Z) :
  length a = length b ->
  (forall i, (i < length a)%nat -> get a i = get b i) ->
  a = b.
Proof.
  intros Hl H. apply (nth_ext a b 0 0 Hl). exact H.
Qed.

Lemma for_range_S {S : Type} lo n (body : nat -> S -> S) s :
  for_range lo (Datatypes.S n) body s = body (lo + n)%nat (for_range lo n body s).
Proof.
  unfold for_range. rewrite seq_S, fold_left_app. reflexivity.
Qed.

Lemma for_range_0 {S : Type} lo (body : nat -> S -> S) s : for_range lo 0 body s = s.
Proof. reflexivity. Qed.

Section CellwiseLoop.
Variable f : nat -> Z -> Z.

Lemma length_cellwise n s : length (cellwise f n s) = length s.
Proof.
  unfold cellwise. induction n as [|n IH].
  - reflexivity.
  - rewrite for_range_S, length_upd. exact IH.
Qed.

Lemma get_cellwise n s j :
  (n <= length s)%nat ->
  get (cellwise f n s) j = if (j <? n)%nat then f j (get s j) else get s j.
Proof.
  unfold cellwise. induction n as [|n IH]; intros Hn.
  - reflexivity.
  - rewrite for_range_S, get_upd. simpl Nat.add.
    fold (cellwise f n s). rewrite length_cellwise.
    destruct (Nat.eqb_spec n j) as [->|Hne].
    + ltb_holds j (length s)%nat.
      ltb_holds j (Datatypes.S j)%nat.
      simpl. unfold cellwise. rewrite IH by lia.
      replace (j <? j)%nat with false by (symmetry; apply Nat.ltb_ge; lia).
      reflexivity.
    + simpl. unfold cellwise. rewrite IH by lia.
      destruct (Nat.ltb_spec j n), (Nat.ltb_spec j (Datatypes.S n)); try lia; reflexivity.
Qed.

End CellwiseLoop.

(** ** Bits of machine integers *)

Lemma is_u8_u8 x : is_u8 (u8 x).
Proof. unfold is_u8, u8. apply Z.mod_pos_bound. lia. Qed.

Lemma is_u32_u32 x : is_u32 (u32 x).
Proof. unfold is_u32, u32. apply Z.mod_pos_bound. lia. Qed.

Lemma testbit_u8 x k : 0 <= k -> Z.testbit (u8 x) k = (k <? 8) && Z.testbit x k.
Proof.
  intros Hk. unfold u8. change 256 with (2 ^ 8).
  destruct (Z.ltb_spec k 8).
  - rewrite Z.mod_pow2_bits_low by lia. reflexivity.
  - rewrite Z.mod_pow2_bits_high by lia. reflexivity.
Qed.

Lemma testbit_u32 x k : 0 <= k -> Z.testbit (u32 x) k = (k <? 32) && Z.testbit x k.
Proof.
  intros Hk. unfold u32.
  destruct (Z.ltb_spec k 32).
  - rewrite Z.mod_pow2_bits_low by lia. reflexivity.
  - rewrite Z.mod_pow2_bits_high by lia. reflexivity.
Qed.

Lemma testbit_high w x k : 0 <= w -> 0 <= x < 2 ^ w -> w <= k -> Z.testbit x k = false.
Proof.
  intros Hw Hx Hk.
  rewrite <- (Z.mod_small x (2 ^ w)) by exact Hx.
  apply Z.mod_pow2_bits_high. lia.
Qed.

Lemma u8_ext a b :
  is_u8 a -> is_u8 b ->
  (forall k, (k < 8)%nat -> Z.testbit a (Z.of_nat k) = Z.testbit b (Z.of_nat k)) ->
  a = b.
Proof.
  intros Ha Hb H. apply Z.bits_inj'. intros n Hn.
  destruct (Z.ltb_spec n 8).
  - rewrite <- (Z2Nat.id n) by lia. apply H. lia.
  - rewrite (testbit_high 8 a n), (testbit_high 8 b n); auto; lia.
Qed.

Lemma u32_ext a b :
  is_u32 a -> is_u32 b ->
  (forall k, (k < 32)%nat -> Z.testbit a (Z.of_nat k) = Z.testbit b (Z.of_nat k)) ->
  a = b.
Proof.
  intros Ha Hb H. apply Z.bits_inj'. intros n Hn.
  destruct (Z.ltb_spec n 32).
  - rewrite <- (Z2Nat.id n) by lia. apply H. lia.
  - rewrite (testbit_high 32 a n), (testbit_high 32 b n); auto; lia.
Qed.

Lemma testbit_shl x k j :
  Z.testbit (shl x k) (Z.of_nat j)
  = if (k <=? j)%nat then Z.testbit x (Z.of_nat (j - k)) else false.
Proof.
  unfold shl. rewrite Z.shiftl_spec by lia.
  destruct (Nat.leb_spec k j).
  - f_equal. lia.
  - apply Z.testbit_neg_r. lia.
Qed.

Lemma testbit_shr_0 x k : Z.testbit (shr x k) 0 = Z.testbit x (Z.of_nat k).
Proof.
  unfold shr. rewrite Z.shiftr_spec by lia. reflexivity.
Qed.

Lemma testbit_land_1 x j :
  Z.testbit (Z.land x 1) (Z.of_nat j) = if (j =? 0)%nat then Z.testbit x 0 else false.
Proof.
  rewrite Z.land_spec. destruct j as [|j].
  - simpl. apply andb_true_r.
  - change 1 with (2 ^ 0). rewrite Z.pow2_bits_false by lia.
    rewrite andb_false_r. reflexivity.
Qed.

Section GatherLoop.
Variables (tr : Z -> Z) (w : nat) (g : nat -> Z).
Hypothesis tr_spec :
  forall x k, Z.testbit (tr x) (Z.of_nat k) = (k <? w)%nat && Z.testbit x (Z.of_nat k).

Lemma testbit_gather n j :
  (n <= w)%nat ->
  Z.testbit (gather tr g n) (Z.of_nat j) = (j <? n)%nat && Z.testbit (g j) 0.
Proof.
  unfold gather. induction n as [|n IH]; intros Hn.
  - rewrite for_range_0. apply Z.testbit_0_l.
  - rewrite for_range_S. simpl Nat.add.
    rewrite tr_spec, Z.lor_spec, IH by lia.
    rewrite testbit_shl, testbit_land_1.
    destruct (Nat.ltb_spec j w), (Nat.ltb_spec j n), (Nat.ltb_spec j (Datatypes.S n)),
      (Nat.leb_spec n j); try lia; simpl; rewrite ?orb_false_r; try reflexivity.
    + assert (j = n) by lia; subst j. rewrite Nat.sub_diag. reflexivity.
    + destruct (Nat.eqb_spec (j - n) 0); [lia | reflexivity].
Qed.

End GatherLoop.

Lemma tr_spec_u8 x k :
  Z.testbit (u8 x) (Z.of_nat k) = (k <? 8)%nat && Z.testbit x (Z.of_nat k).
Proof.
  rewrite testbit_u8 by lia. f_equal.
  destruct (Nat.ltb_spec k 8), (Z.ltb_spec (Z.of_nat k) 8); auto; lia.
Qed.

Lemma tr_spec_u32 x k :
  Z.testbit (u32 x) (Z.of_nat k) = (k <? 32)%nat && Z.testbit x (Z.of_nat k).
Proof.
  rewrite testbit_u32 by lia. f_equal.
  destruct (Nat.ltb_spec k 32), (Z.ltb_spec (Z.of_nat k) 32); auto; lia.
Qed.

(** ** The bit transpose *)

Lemma is_u32_gather g n : is_u32 (gather u32 g n).
Proof.
  unfold gather. destruct n as [|n].
  - rewrite for_range_0. unfold is_u32. lia.
  - rewrite for_range_S. apply is_u32_u32.
Qed.

Lemma is_u8_gather g n : is_u8 (gather u8 g n).
Proof.
  unfold gather. destruct n as [|n].
  - rewrite for_range_0. unfold is_u8. lia.
  - rewrite for_range_S. apply is_u8_u8.
Qed.

Lemma enslice_cellwise pt st0 :
  Bitsliced.enslice pt st0
  = cellwise (fun i _ =>
      gather u32 (fun bit => shr (get pt (i / 8 + bit * 8)) (i mod 8)) 32) 64 st0.
Proof.
  unfold Bitsliced.enslice, cellwise, gather, CRYPTO_IN_SIZE_BIT, BITSLICE_WIDTH.
  reflexivity.
Qed.

Lemma unslice_cellwise st pt0 :
  Bitsliced.unslice st pt0
  = cellwise (fun i _ =>
      gather u8 (fun bit => shr (get st ((i * 8) mod 64 + bit)) (i / 8)) 8) 256 pt0.
Proof.
  unfold Bitsliced.unslice, cellwise, gather, CRYPTO_IN_SIZE_BIT.
  change (CRYPTO_IN_SIZE * BITSLICE_WIDTH)%nat with 256%nat.
  reflexivity.
Qed.

Lemma length_enslice pt st0 : length (Bitsliced.enslice pt st0) = length st0.
Proof. rewrite enslice_cellwise. apply length_cellwise. Qed.

Lemma length_unslice st pt0 : length (Bitsliced.unslice st pt0) = length pt0.
Proof. rewrite unslice_cellwise. apply length_cellwise. Qed.

Lemma get_enslice pt st0 i :
  length st0 = 64%nat -> (i < 64)%nat ->
  get (Bitsliced.enslice pt st0) i
  = gather u32 (fun bit => shr (get pt (i / 8 + bit * 8)) (i mod 8)) 32.
Proof.
  intros Hl Hi. rewrite enslice_cellwise, get_cellwise by lia.
  apply Nat.ltb_lt in Hi. rewrite Hi. reflexivity.
Qed.

Lemma get_unslice st pt0 k :
  length pt0 = 256%nat -> (k < 256)%nat ->
  get (Bitsliced.unslice st pt0) k
  = gather u8 (fun bit => shr (get st ((k * 8) mod 64 + bit)) (k / 8)) 8.
Proof.
  intros Hl Hk. rewrite unslice_cellwise, get_cellwise by lia.
  apply Nat.ltb_lt in Hk. rewrite Hk. reflexivity.
Qed.

(** Bit [j] of plane [i] is bit [i mod 8] of byte [i / 8 + 8 j]. *)
Lemma testbit_enslice pt st0 i j :
  length st0 = 64%nat -> (i < 64)%nat -> (j < 32)%nat ->
  Z.testbit (get (Bitsliced.enslice pt st0) i) (Z.of_nat j)
  = Z.testbit (get pt (i / 8 + j * 8)) (Z.of_nat (i mod 8)).
Proof.
  intros Hl Hi Hj. rewrite get_enslice by assumption.
  rewrite (testbit_gather u32 32) by (apply tr_spec_u32 || lia).
  apply Nat.ltb_lt in Hj. rewrite Hj, andb_true_l.
  rewrite testbit_shr_0. reflexivity.
Qed.

(** Bit [b] of byte [k] is bit [k / 8] of plane [8 (k mod 8) + b]. *)
Lemma testbit_unslice st pt0 k b :
  length pt0 = 256%nat -> (k < 256)%nat -> (b < 8)%nat ->
  Z.testbit (get (Bitsliced.unslice st pt0) k) (Z.of_nat b)
  = Z.testbit (get st ((k mod 8) * 8 + b)) (Z.of_nat (k / 8)).
Proof.
  intros Hl Hk Hb. rewrite get_unslice by assumption.
  rewrite (testbit_gather u8 8) by (apply tr_spec_u8 || lia).
  apply Nat.ltb_lt in Hb. rewrite Hb, andb_true_l.
  rewrite testbit_shr_0.
  replace ((k * 8) mod 64)%nat with ((k mod 8) * 8)%nat; [reflexivity|].
  divmod_facts (k * 8)%nat 64%nat.
  divmod_facts k 8%nat.
  lia.
Qed.

Lemma Forall_get (P : Z -> Prop) a i : Forall P a -> (i < length a)%nat -> P (get a i).
Proof.
  intros H Hi. rewrite Forall_forall in H. apply H. unfold get. apply nth_In. exact Hi.
Qed.

Lemma Forall_of_get (P : Z -> Prop) a :
  (forall i, (i < length a)%nat -> P (get a i)) -> Forall P a.
Proof.
  intros H. apply Forall_forall. intros x Hx.
  destruct (In_nth a x 0 Hx) as [i [Hi <-]]. apply H. exact Hi.
Qed.

Lemma planes_ok_enslice pt st0 : length st0 = 64%nat -> planes_ok (Bitsliced.enslice pt st0).
Proof.
  intros Hl. split.
  - rewrite length_enslice. exact Hl.
  - apply Forall_of_get. intros i Hi. rewrite length_enslice in Hi.
    rewrite get_enslice by lia. apply is_u32_gather.
Qed.

Lemma bytes_ok_unslice st pt0 : length pt0 = 256%nat -> bytes_ok 256 (Bitsliced.unslice st pt0).
Proof.
  intros Hl. split.
  - rewrite length_unslice. exact Hl.
  - apply Forall_of_get. intros i Hi. rewrite length_unslice in Hi.
    rewrite get_unslice by lia. apply is_u8_gather.
Qed.

Lemma unslice_enslice x st0 pt0 :
  bytes_ok 256 x -> length st0 = 64%nat -> length pt0 = 256%nat ->
  Bitsliced.unslice (Bitsliced.enslice x st0) pt0 = x.
Proof.
  intros [Hx Hr] Hs Hp. apply list_ext.
  - rewrite length_unslice. lia.
  - intros k Hk. rewrite length_unslice in Hk.
    apply u8_ext.
    + apply Forall_get; [apply bytes_ok_unslice; assumption | rewrite length_unslice; lia].
    + apply Forall_get; [assumption | lia].
    + intros b Hb.
      divmod_facts k 8%nat.
      rewrite testbit_unslice by lia.
      rewrite testbit_enslice by lia.
      divmod_facts (k mod 8 * 8 + b)%nat 8%nat.
      replace ((k mod 8 * 8 + b) / 8 + k / 8 * 8)%nat with k by lia.
      replace ((k mod 8 * 8 + b) mod 8)%nat with b by lia.
      reflexivity.
Qed.

Lemma enslice_unslice y st0 pt0 :
  planes_ok y -> length st0 = 64%nat -> length pt0 = 256%nat ->
  Bitsliced.enslice (Bitsliced.unslice y pt0) st0 = y.
Proof.
  intros [Hy Hr] Hs Hp. apply list_ext.
  - rewrite length_enslice. lia.
  - intros i Hi. rewrite length_enslice in Hi.
    apply u32_ext.
    + apply Forall_get; [apply planes_ok_enslice; assumption | rewrite length_enslice; lia].
    + apply Forall_get; [assumption | lia].
    + intros j Hj.
      divmod_facts i 8%nat.
      rewrite testbit_enslice by lia.
      rewrite testbit_unslice by lia.
      divmod_facts (i / 8 + j * 8)%nat 8%nat.
      replace ((i / 8 + j * 8) mod 8 * 8 + i mod 8)%nat with i by lia.
      replace ((i / 8 + j * 8) / 8)%nat with j by lia.
      reflexivity.
Qed.

(** ** Bit views of the two state layouts *)

(** Statements about one byte are decided by running through all of them. *)
Lemma forall_u8 (P : Z -> bool) :
  forallb P (map Z.of_nat (seq 0 256)) = true ->
  forall x, is_u8 x -> P x = true.
Proof.
  intros H x Hx. rewrite forallb_forall in H. apply H.
  rewrite <- (Z2Nat.id x) by (unfold is_u8 in Hx; lia).
  apply in_map. apply in_seq. unfold is_u8 in Hx. lia.
Qed.

Lemma forall_lt (n : nat) (P : nat -> bool) :
  forallb P (seq 0 n) = true -> forall k, (k < n)%nat -> P k = true.
Proof.
  intros H k Hk. rewrite forallb_forall in H. apply H. apply in_seq. lia.
Qed.

Lemma Forall_upd (P : Z -> Prop) a i v : Forall P a -> P v -> Forall P (upd a i v).
Proof.
  intros Ha Hv. revert i. induction Ha as [|h t Hh Ht IH]; intros [|i]; simpl; auto.
Qed.

Lemma Forall_cellwise (P : Z -> Prop) f n s :
  n = length s -> (forall i x, P (f i x)) -> Forall P (cellwise f n s).
Proof.
  intros Hn Hf. apply Forall_of_get. intros i Hi.
  rewrite length_cellwise in Hi. rewrite get_cellwise by lia.
  ltb_holds i n.
  apply Hf.
Qed.

(** ** The scalar layers, bit by bit *)

Lemma scalar_add_round_key_cellwise pt rk :
  Scalar.add_round_key pt rk = cellwise (fun i x => u8 (Z.lxor x (get rk i))) 8 pt.
Proof. unfold Scalar.add_round_key, cellwise. reflexivity. Qed.

Lemma bytes_ok_scalar_add_round_key pt rk :
  length pt = 8%nat -> bytes_ok 8 (Scalar.add_round_key pt rk).
Proof.
  intros Hl. rewrite scalar_add_round_key_cellwise. split.
  - rewrite length_cellwise. exact Hl.
  - apply Forall_cellwise; [lia | intros; apply is_u8_u8].
Qed.

Lemma bit_of_scalar_add_round_key pt rk n :
  length pt = 8%nat -> (n < 64)%nat ->
  bit_of (Scalar.add_round_key pt rk) n = xorb (bit_of pt n) (bit_of rk n).
Proof.
  intros Hl Hn. unfold bit_of.
  divmod_facts n 8%nat.
  rewrite scalar_add_round_key_cellwise, get_cellwise by lia.
  ltb_holds (n / 8)%nat 8%nat.
  rewrite tr_spec_u8, Z.lxor_spec.
  ltb_holds (n mod 8)%nat 8%nat.
  reflexivity.
Qed.

Lemma scalar_sbox_layer_cellwise s :
  Scalar.sbox_layer s = cellwise (fun _ x => sbox_byte x) 8 s.
Proof. unfold Scalar.sbox_layer, cellwise, sbox_byte. reflexivity. Qed.

Lemma bytes_ok_scalar_sbox_layer s :
  length s = 8%nat -> bytes_ok 8 (Scalar.sbox_layer s).
Proof.
  intros Hl. rewrite scalar_sbox_layer_cellwise. split.
  - rewrite length_cellwise. exact Hl.
  - apply Forall_cellwise; [lia | intros; apply is_u8_u8].
Qed.

Lemma testbit_sbox_byte x p :
  is_u8 x -> (p < 8)%nat ->
  Z.testbit (sbox_byte x) (Z.of_nat p)
  = Z.testbit
      (sbox_of_bits (Z.testbit x (Z.of_nat (4 * (p / 4))))
                    (Z.testbit x (Z.of_nat (4 * (p / 4) + 1)))
                    (Z.testbit x (Z.of_nat (4 * (p / 4) + 2)))
                    (Z.testbit x (Z.of_nat (4 * (p / 4) + 3))))
      (Z.of_nat (p mod 4)).
Proof.
  intros Hx Hp.
  apply eqb_prop.
  revert p Hp. apply (forall_lt 8 (fun p => eqb _ _)).
  revert x Hx. apply (forall_u8 (fun x => forallb (fun p => eqb _ _) _)).
  vm_compute. reflexivity.
Qed.

Lemma bit_of_scalar_sbox_layer s n :
  bytes_ok 8 s -> (n < 64)%nat ->
  bit_of (Scalar.sbox_layer s) n
  = Z.testbit
      (sbox_of_bits (bit_of s (4 * (n / 4))) (bit_of s (4 * (n / 4) + 1))
                    (bit_of s (4 * (n / 4) + 2)) (bit_of s (4 * (n / 4) + 3)))
      (Z.of_nat (n mod 4)).
Proof.
  intros [Hl Hr] Hn. unfold bit_of.
  divmod_facts n 8%nat.
  divmod_facts n 4%nat.
  divmod_facts (n mod 8)%nat 4%nat.
  rewrite scalar_sbox_layer_cellwise, get_cellwise by lia.
  ltb_holds (n / 8)%nat 8%nat.
  rewrite testbit_sbox_byte by (try apply Forall_get; auto; lia).
  assert (E : forall t, (t < 4)%nat ->
            ((4 * (n / 4) + t) / 8 = n / 8
             /\ (4 * (n / 4) + t) mod 8 = 4 * (n mod 8 / 4) + t)%nat).
  { intros t Ht.
    divmod_facts (4 * (n / 4) + t)%nat 8%nat. lia. }
  destruct (E 0%nat) as [E0 E0']; [lia|].
  destruct (E 1%nat) as [E1 E1']; [lia|].
  destruct (E 2%nat) as [E2 E2']; [lia|].
  destruct (E 3%nat) as [E3 E3']; [lia|].
  rewrite Nat.add_0_r in E0, E0'.
  rewrite E0, E0', E1, E1', E2, E2', E3, E3', Nat.add_0_r.
  replace (n mod 8 mod 4)%nat with (n mod 4)%nat by lia.
  reflexivity.
Qed.

(** ** The bit permutation *)

Lemma pbox_pos_lt b : (b < 64)%nat -> (Scalar.pbox_pos b < 64)%nat.
Proof.
  intros Hb. unfold Scalar.pbox_pos.
  divmod_facts b 4%nat. lia.
Qed.

Lemma pbox_inv_lt p : (p < 64)%nat -> (pbox_inv p < 64)%nat.
Proof.
  intros Hp. unfold pbox_inv.
  divmod_facts p 16%nat. lia.
Qed.

Lemma pbox_inv_pos b : (b < 64)%nat -> pbox_inv (Scalar.pbox_pos b) = b.
Proof.
  intros Hb. apply Nat.eqb_eq. revert b Hb.
  apply (forall_lt 64 (fun b => (pbox_inv (Scalar.pbox_pos b) =? b)%nat)).
  vm_compute. reflexivity.
Qed.

Lemma pbox_pos_inv p : (p < 64)%nat -> Scalar.pbox_pos (pbox_inv p) = p.
Proof.
  intros Hp. apply Nat.eqb_eq. revert p Hp.
  apply (forall_lt 64 (fun p => (Scalar.pbox_pos (pbox_inv p) =? p)%nat)).
  vm_compute. reflexivity.
Qed.

Lemma pbox_pos_eq_iff b p :
  (b < 64)%nat -> (p < 64)%nat -> (Scalar.pbox_pos b = p <-> b = pbox_inv p).
Proof.
  intros Hb Hp. split.
  - intros <-. symmetry. apply pbox_inv_pos. exact Hb.
  - intros ->. apply pbox_pos_inv. exact Hp.
Qed.

Lemma bitsliced_pbox_pos_eq b : Bitsliced.pbox_pos b = Scalar.pbox_pos b.
Proof. reflexivity. Qed.

Lemma is_u8_cpybit v bit bitv : is_u8 (Scalar.cpybit v bit bitv).
Proof. unfold Scalar.cpybit. apply is_u8_u8. Qed.

Lemma testbit_cpybit v bit x k j :
  (j < 8)%nat ->
  Z.testbit (Scalar.cpybit v bit (Scalar.getbit x k)) (Z.of_nat j)
  = if (j =? bit)%nat then Z.testbit x (Z.of_nat k) else Z.testbit v (Z.of_nat j).
Proof.
  intros Hj. unfold Scalar.cpybit, Scalar.getbit.
  rewrite tr_spec_u8, Z.lor_spec, tr_spec_u8, Z.land_spec, tr_spec_u8.
  rewrite Z.lnot_spec by lia.
  rewrite !testbit_shl, testbit_land_1, testbit_shr_0.
  ltb_holds j 8%nat.
  change 1 with (2 ^ 0).
  destruct (Nat.eqb_spec j bit) as [->|Hne].
  - rewrite Nat.leb_refl, Nat.sub_diag. simpl Nat.eqb.
    rewrite Z.pow2_bits_true by lia. simpl. rewrite andb_false_r. reflexivity.
  - destruct (Nat.leb_spec bit j).
    + destruct (Nat.eqb_spec (j - bit) 0); [lia|].
      rewrite Z.pow2_bits_false by lia. simpl.
      rewrite orb_false_r, andb_true_r. reflexivity.
    + simpl. rewrite orb_false_r, andb_true_r. reflexivity.
Qed.

Lemma bit_of_upd_cpybit a q x k p :
  length a = 8%nat -> (q < 64)%nat -> (p < 64)%nat ->
  bit_of (upd a (q / 8) (Scalar.cpybit (get a (q / 8)) (q mod 8) (Scalar.getbit x k))) p
  = if (p =? q)%nat then Z.testbit x (Z.of_nat k) else bit_of a p.
Proof.
  intros Hl Hq Hp. unfold bit_of.
  divmod_facts q 8%nat.
  divmod_facts p 8%nat.
  rewrite get_upd.
  ltb_holds (q / 8)%nat (length a)%nat.
  rewrite andb_true_r.
  destruct (Nat.eqb_spec (q / 8) (p / 8)) as [E|E].
  - rewrite testbit_cpybit by lia. rewrite E.
    destruct (Nat.eqb_spec (p mod 8) (q mod 8)), (Nat.eqb_spec p q); try lia; reflexivity.
  - destruct (Nat.eqb_spec p q); [subst; lia | reflexivity].
Qed.

Lemma scalar_pbox_out_inv s n :
  (n <= 64)%nat ->
  bytes_ok 8 (scalar_pbox_out s n)
  /\ forall p, (p < 64)%nat ->
       bit_of (scalar_pbox_out s n) p = (pbox_inv p <? n)%nat && bit_of s (pbox_inv p).
Proof.
  unfold scalar_pbox_out. induction n as [|n IH]; intros Hn.
  - rewrite for_range_0. split.
    + split; [reflexivity|]. repeat constructor; unfold is_u8; lia.
    + intros p Hp. unfold bit_of.
      divmod_facts p 8%nat.
      assert (E : get (repeat 0 8) (p / 8) = 0).
      { unfold get. apply nth_repeat. }
      rewrite E. apply Z.testbit_0_l.
  - rewrite for_range_S. simpl Nat.add. cbv zeta.
    destruct (IH ltac:(lia)) as [[Hl Hr] Hb]. split.
    + split; [rewrite length_upd; exact Hl|].
      apply Forall_upd; [exact Hr | apply is_u8_cpybit].
    + intros p Hp.
      rewrite bit_of_upd_cpybit by (auto using pbox_pos_lt; lia).
      rewrite Hb by exact Hp.
      pose proof (pbox_pos_eq_iff n p ltac:(lia) Hp) as Hiff.
      destruct (Nat.eqb_spec p (Scalar.pbox_pos n)) as [E|E].
      * assert (En : n = pbox_inv p) by (apply Hiff; auto).
        rewrite <- En.
        ltb_holds n (S n)%nat.
        reflexivity.
      * assert (En : n <> pbox_inv p) by (intros En; apply E; symmetry; apply Hiff; exact En).
        destruct (Nat.ltb_spec (pbox_inv p) n), (Nat.ltb_spec (pbox_inv p) (S n));
          try lia; reflexivity.
Qed.

Lemma scalar_pbox_layer_cellwise s :
  Scalar.pbox_layer s = cellwise (fun i _ => get (scalar_pbox_out s 64) i) 8 s.
Proof. unfold Scalar.pbox_layer, cellwise, scalar_pbox_out. reflexivity. Qed.

Lemma bytes_ok_scalar_pbox_layer s :
  length s = 8%nat -> bytes_ok 8 (Scalar.pbox_layer s).
Proof.
  intros Hl. rewrite scalar_pbox_layer_cellwise. split.
  - rewrite length_cellwise. exact Hl.
  - apply Forall_of_get. intros i Hi. rewrite length_cellwise in Hi.
    rewrite get_cellwise by lia.
    ltb_holds i 8%nat.
    destruct (scalar_pbox_out_inv s 64 ltac:(lia)) as [[Hlo Hro] _].
    apply Forall_get; [exact Hro | lia].
Qed.

Lemma bit_of_scalar_pbox_layer s p :
  length s = 8%nat -> (p < 64)%nat ->
  bit_of (Scalar.pbox_layer s) p = bit_of s (pbox_inv p).
Proof.
  intros Hl Hp.
  destruct (scalar_pbox_out_inv s 64 ltac:(lia)) as [_ Hb].
  rewrite <- (andb_true_l (bit_of s (pbox_inv p))).
  replace true with (pbox_inv p <? 64)%nat
    by (apply Nat.ltb_lt; apply pbox_inv_lt; exact Hp).
  rewrite <- Hb by exact Hp.
  unfold bit_of at 1.
  divmod_facts p 8%nat.
  rewrite scalar_pbox_layer_cellwise, get_cellwise by lia.
  ltb_holds (p / 8)%nat 8%nat.
  reflexivity.
Qed.

(** ** The bit-sliced layers, lane by lane *)

Lemma land_1_b2z x : Z.land x 1 = Z.b2z (Z.testbit x 0).
Proof.
  change 1 with (Z.ones 1). rewrite Z.land_ones by lia.
  change (2 ^ 1) with 2. symmetry. apply Z.bit0_mod.
Qed.

Lemma testbit_all_ones j : (j < 32)%nat -> Z.testbit 0xFFFFFFFF (Z.of_nat j) = true.
Proof.
  intros Hj. change 0xFFFFFFFF with (Z.ones 32). apply Z.ones_spec_low. lia.
Qed.

Lemma testbit_key_mask rk i j :
  (j < 32)%nat -> Z.testbit (key_mask rk i) (Z.of_nat j) = bit_of rk i.
Proof.
  intros Hj. unfold key_mask, bit_of, CRYPTO_IN_SIZE.
  rewrite land_1_b2z, testbit_shr_0.
  destruct (Z.testbit (get rk (i / 8)) (Z.of_nat (i mod 8))).
  - simpl Z.b2z. change (u8 1 =? 0) with false. cbv iota. apply testbit_all_ones. exact Hj.
  - simpl Z.b2z. change (u8 0 =? 0) with true. cbv iota. apply Z.testbit_0_l.
Qed.

Lemma bitsliced_add_round_key_cellwise st rk :
  Bitsliced.add_round_key st rk
  = cellwise (fun bit x => u32 (Z.lxor x (key_mask rk bit))) 64 st.
Proof.
  unfold Bitsliced.add_round_key, cellwise, key_mask, CRYPTO_IN_SIZE_BIT. reflexivity.
Qed.

Lemma length_bitsliced_add_round_key st rk :
  length (Bitsliced.add_round_key st rk) = length st.
Proof. rewrite bitsliced_add_round_key_cellwise. apply length_cellwise. Qed.

Lemma pbit_bitsliced_add_round_key st rk i j :
  length st = 64%nat -> (i < 64)%nat -> (j < 32)%nat ->
  pbit (Bitsliced.add_round_key st rk) i j = xorb (pbit st i j) (bit_of rk i).
Proof.
  intros Hl Hi Hj. unfold pbit.
  rewrite bitsliced_add_round_key_cellwise, get_cellwise by lia.
  ltb_holds i 64%nat.
  rewrite tr_spec_u32, Z.lxor_spec, testbit_key_mask by exact Hj.
  ltb_holds j 32%nat.
  reflexivity.
Qed.

(** In every lane, the four functions compute the four bits of the table
    entry selected by that lane's input bits. *)
Lemma testbit_sbox_fn k x0 x1 x2 x3 j :
  (k < 4)%nat -> (j < 32)%nat ->
  Z.testbit (sbox_fn k x0 x1 x2 x3) (Z.of_nat j)
  = Z.testbit
      (sbox_of_bits (Z.testbit x0 (Z.of_nat j)) (Z.testbit x1 (Z.of_nat j))
                    (Z.testbit x2 (Z.of_nat j)) (Z.testbit x3 (Z.of_nat j)))
      (Z.of_nat k).
Proof.
  intros Hk Hj.
  assert (Hinv : Z.testbit Bitsliced.BS_INV (Z.of_nat j) = true)
    by (apply testbit_all_ones; exact Hj).
  assert (Hlt : (j <? 32)%nat = true) by (apply Nat.ltb_lt; exact Hj).
  destruct k as [|[|[|[|k]]]]; try lia;
    unfold sbox_fn, Bitsliced.sbox0, Bitsliced.sbox1, Bitsliced.sbox2, Bitsliced.sbox3;
    cbv zeta;
    repeat (rewrite ?tr_spec_u32, ?Z.lxor_spec, ?Z.land_spec, ?Hinv, ?Hlt);
    destruct (Z.testbit x0 (Z.of_nat j)), (Z.testbit x1 (Z.of_nat j)),
      (Z.testbit x2 (Z.of_nat j)), (Z.testbit x3 (Z.of_nat j));
    reflexivity.
Qed.

Lemma bitsliced_sbox_out_inv st n :
  (n <= 16)%nat ->
  length (bitsliced_sbox_out st n) = 64%nat
  /\ forall i, (i < 64)%nat ->
       get (bitsliced_sbox_out st n) i
       = if (i <? 4 * n)%nat
         then sbox_fn (i mod 4) (get st (i / 4 * 4 + 0)) (get st (i / 4 * 4 + 1))
                (get st (i / 4 * 4 + 2)) (get st (i / 4 * 4 + 3))
         else 0.
Proof.
  unfold bitsliced_sbox_out. induction n as [|n IH]; intros Hn.
  - rewrite for_range_0. split; [reflexivity|].
    intros i Hi. simpl Nat.mul. simpl Nat.ltb. unfold get. apply nth_repeat.
  - rewrite for_range_S. change (0 + n)%nat with n. cbv zeta.
    destruct (IH ltac:(lia)) as [Hl Hg]. split.
    + rewrite !length_upd. exact Hl.
    + intros i Hi.
      divmod_facts i 4%nat.
      rewrite !get_upd, !length_upd, Hl, Hg by exact Hi.
      destruct (Nat.ltb_spec i (4 * n)), (Nat.ltb_spec i (4 * S n)); try lia.
      * repeat match goal with
               | |- context [Nat.eqb ?a ?b] => destruct (Nat.eqb_spec a b); try lia
               end.
        reflexivity.
      * assert (En : (i / 4 = n)%nat) by lia. rewrite En.
        repeat match goal with
               | |- context [Nat.ltb ?a ?b] => destruct (Nat.ltb_spec a b); try lia
               end.
        assert (Em : (i mod 4 = 0 \/ i mod 4 = 1 \/ i mod 4 = 2 \/ i mod 4 = 3)%nat) by lia.
        destruct Em as [Em|[Em|[Em|Em]]]; rewrite Em;
          repeat match goal with
                 | |- context [Nat.eqb ?a ?b] => destruct (Nat.eqb_spec a b); try lia
                 end;
          reflexivity.
      * repeat match goal with
               | |- context [Nat.eqb ?a ?b] => destruct (Nat.eqb_spec a b); try lia
               end.
        reflexivity.
Qed.

Lemma bitsliced_sbox_layer_cellwise st :
  Bitsliced.sbox_layer st = cellwise (fun i _ => get (bitsliced_sbox_out st 16) i) 64 st.
Proof.
  unfold Bitsliced.sbox_layer, cellwise, bitsliced_sbox_out, CRYPTO_IN_SIZE_BIT.
  reflexivity.
Qed.

Lemma length_bitsliced_sbox_layer st : length (Bitsliced.sbox_layer st) = length st.
Proof. rewrite bitsliced_sbox_layer_cellwise. apply length_cellwise. Qed.

Lemma get_bitsliced_sbox_layer st i :
  length st = 64%nat -> (i < 64)%nat ->
  get (Bitsliced.sbox_layer st) i
  = sbox_fn (i mod 4) (get st (i / 4 * 4 + 0)) (get st (i / 4 * 4 + 1))
      (get st (i / 4 * 4 + 2)) (get st (i / 4 * 4 + 3)).
Proof.
  intros Hl Hi.
  rewrite bitsliced_sbox_layer_cellwise, get_cellwise by lia.
  ltb_holds i 64%nat.
  destruct (bitsliced_sbox_out_inv st 16 ltac:(lia)) as [_ Hg].
  rewrite Hg by exact Hi.
  ltb_holds i (4 * 16)%nat.
  reflexivity.
Qed.

Lemma bitsliced_pbox_out_inv st n :
  (n <= 64)%nat ->
  length (bitsliced_pbox_out st n) = 64%nat
  /\ forall p, (p < 64)%nat ->
       get (bitsliced_pbox_out st n) p
       = if (pbox_inv p <? n)%nat then get st (pbox_inv p) else 0.
Proof.
  unfold bitsliced_pbox_out. induction n as [|n IH]; intros Hn.
  - rewrite for_range_0. split; [reflexivity|].
    intros p Hp. simpl Nat.ltb. unfold get. apply nth_repeat.
  - rewrite for_range_S. simpl Nat.add. cbv zeta.
    destruct (IH ltac:(lia)) as [Hl Hg]. split.
    + rewrite length_upd. exact Hl.
    + intros p Hp. rewrite get_upd, Hl, Hg by exact Hp.
      rewrite bitsliced_pbox_pos_eq.
      pose proof (pbox_pos_lt n ltac:(lia)).
      ltb_holds (Scalar.pbox_pos n)%nat 64%nat.
      rewrite andb_true_r.
      pose proof (pbox_pos_eq_iff n p ltac:(lia) Hp) as Hiff.
      destruct (Nat.eqb_spec (Scalar.pbox_pos n) p) as [E|E].
      * assert (En : n = pbox_inv p) by (apply Hiff; exact E).
        rewrite <- En.
        ltb_holds n (S n)%nat.
        reflexivity.
      * assert (En : n <> pbox_inv p) by (intros En; apply E; apply Hiff; exact En).
        destruct (Nat.ltb_spec (pbox_inv p) n), (Nat.ltb_spec (pbox_inv p) (S n));
          try lia; reflexivity.
Qed.

Lemma bitsliced_pbox_layer_cellwise st :
  Bitsliced.pbox_layer st = cellwise (fun i _ => get (bitsliced_pbox_out st 64) i) 64 st.
Proof.
  unfold Bitsliced.pbox_layer, cellwise, bitsliced_pbox_out, CRYPTO_IN_SIZE_BIT.
  reflexivity.
Qed.

Lemma length_bitsliced_pbox_layer st : length (Bitsliced.pbox_layer st) = length st.
Proof. rewrite bitsliced_pbox_layer_cellwise. apply length_cellwise. Qed.

Lemma get_bitsliced_pbox_layer st p :
  length st = 64%nat -> (p < 64)%nat ->
  get (Bitsliced.pbox_layer st) p = get st (pbox_inv p).
Proof.
  intros Hl Hp.
  rewrite bitsliced_pbox_layer_cellwise, get_cellwise by lia.
  ltb_holds p 64%nat.
  destruct (bitsliced_pbox_out_inv st 64 ltac:(lia)) as [_ Hg].
  rewrite Hg by exact Hp.
  replace (pbox_inv p <? 64)%nat with true
    by (symmetry; apply Nat.ltb_lt; apply pbox_inv_lt; exact Hp).
  reflexivity.
Qed.

(** ** Scalar blocks against bit-sliced lanes *)

Lemma length_concat8 (bs : list (list Z)) :
  Forall len8 bs -> length (concat bs) = (8 * length bs)%nat.
Proof.
  induction 1 as [|b bs Hb Hbs IH]; simpl; [reflexivity|].
  rewrite length_app, IH, Hb. lia.
Qed.

Lemma get_concat8 (bs : list (list Z)) j r :
  Forall len8 bs -> (r < 8)%nat ->
  get (concat bs) (r + j * 8) = get (nth j bs []) r.
Proof.
  intros H. revert j. induction H as [|b bs Hb Hbs IH]; intros j Hr.
  - simpl. unfold get. destruct j; destruct (r + _)%nat; destruct r; reflexivity.
  - destruct j as [|j]; simpl; unfold get.
    + rewrite Nat.add_0_r. apply app_nth1. rewrite Hb. exact Hr.
    + rewrite app_nth2 by (rewrite Hb; lia).
      replace (r + S (S (S (S (S (S (S (S (j * 8)))))))) - length b)%nat
        with (r + j * 8)%nat by (rewrite Hb; lia).
      apply IH. exact Hr.
Qed.

Lemma nth_map_blocks (f : list Z -> list Z) (bs : list (list Z)) j :
  (j < length bs)%nat -> nth j (map f bs) [] = f (nth j bs []).
Proof.
  intros Hj. rewrite (nth_indep _ [] (f [])) by (rewrite length_map; exact Hj).
  apply map_nth.
Qed.

Lemma Forall_nth_block (P : list Z -> Prop) (bs : list (list Z)) j :
  Forall P bs -> (j < length bs)%nat -> P (nth j bs []).
Proof.
  intros H Hj. rewrite Forall_forall in H. apply H. apply nth_In. exact Hj.
Qed.

Lemma sim_enslice blocks st0 :
  length blocks = 32%nat -> Forall len8 blocks -> length st0 = 64%nat ->
  sim blocks (Bitsliced.enslice (concat blocks) st0).
Proof.
  intros Hn Hb Hs. split.
  - rewrite length_enslice. exact Hs.
  - intros i j Hi Hj. unfold pbit. rewrite testbit_enslice by assumption.
    divmod_facts i 8%nat.
    rewrite get_concat8 by (auto; lia). reflexivity.
Qed.

Lemma sim_add_round_key blocks st rk :
  length blocks = 32%nat -> Forall len8 blocks -> sim blocks st ->
  sim (map (fun b => Scalar.add_round_key b rk) blocks) (Bitsliced.add_round_key st rk).
Proof.
  intros Hn Hb [Hl Hs]. split.
  - rewrite length_bitsliced_add_round_key. exact Hl.
  - intros i j Hi Hj.
    rewrite nth_map_blocks by lia.
    rewrite pbit_bitsliced_add_round_key by assumption.
    rewrite bit_of_scalar_add_round_key by (try apply Forall_nth_block; auto; lia).
    rewrite Hs by assumption. reflexivity.
Qed.

Lemma sim_sbox_layer blocks st :
  length blocks = 32%nat -> Forall (bytes_ok 8) blocks -> sim blocks st ->
  sim (map Scalar.sbox_layer blocks) (Bitsliced.sbox_layer st).
Proof.
  intros Hn Hb [Hl Hs]. split.
  - rewrite length_bitsliced_sbox_layer. exact Hl.
  - intros i j Hi Hj.
    divmod_facts i 4%nat.
    rewrite nth_map_blocks by lia.
    rewrite bit_of_scalar_sbox_layer by (try apply Forall_nth_block; auto; lia).
    unfold pbit. rewrite get_bitsliced_sbox_layer by assumption.
    rewrite testbit_sbox_fn by lia.
    fold (pbit st (i / 4 * 4 + 0) j) (pbit st (i / 4 * 4 + 1) j)
         (pbit st (i / 4 * 4 + 2) j) (pbit st (i / 4 * 4 + 3) j).
    rewrite !Hs by lia.
    rewrite Nat.add_0_r, (Nat.mul_comm (i / 4) 4). reflexivity.
Qed.

Lemma sim_pbox_layer blocks st :
  length blocks = 32%nat -> Forall len8 blocks -> sim blocks st ->
  sim (map Scalar.pbox_layer blocks) (Bitsliced.pbox_layer st).
Proof.
  intros Hn Hb [Hl Hs]. split.
  - rewrite length_bitsliced_pbox_layer. exact Hl.
  - intros i j Hi Hj.
    rewrite nth_map_blocks by lia.
    rewrite bit_of_scalar_pbox_layer by (try apply Forall_nth_block; auto; lia).
    unfold pbit. rewrite get_bitsliced_pbox_layer by assumption.
    apply Hs; [apply pbox_inv_lt; exact Hi | exact Hj].
Qed.

Lemma Forall_map_blocks (P : list Z -> Prop) (f : list Z -> list Z) (bs : list (list Z)) :
  (forall b, In b bs -> P (f b)) -> Forall P (map f bs).
Proof.
  intros H. apply Forall_forall. intros y Hy.
  apply in_map_iff in Hy. destruct Hy as [b [<- Hb]]. apply H. exact Hb.
Qed.

Lemma bytes_ok_len8 b : bytes_ok 8 b -> len8 b.
Proof. intros [H _]. exact H. Qed.

Lemma sim_unslice blocks st pt0 :
  length blocks = 32%nat -> Forall (bytes_ok 8) blocks -> sim blocks st ->
  length pt0 = 256%nat ->
  Bitsliced.unslice st pt0 = concat blocks.
Proof.
  intros Hn Hb [Hl Hs] Hp.
  assert (Hb8 : Forall len8 blocks).
  { eapply Forall_impl; [|exact Hb]. apply bytes_ok_len8. }
  assert (Hlc : length (concat blocks) = 256%nat).
  { rewrite length_concat8 by exact Hb8. lia. }
  apply list_ext.
  - rewrite length_unslice. lia.
  - intros k Hk. rewrite length_unslice in Hk.
    divmod_facts k 8%nat.
    assert (E : get (concat blocks) k = get (nth (k / 8) blocks []) (k mod 8)).
    { rewrite <- get_concat8 by (auto; lia). f_equal. lia. }
    apply u8_ext.
    + apply Forall_get; [apply bytes_ok_unslice; assumption | rewrite length_unslice; lia].
    + rewrite E.
      destruct (Forall_nth_block _ blocks (k / 8) Hb ltac:(lia)) as [Hlb Hrb].
      apply Forall_get; [exact Hrb | lia].
    + intros b Hbit. rewrite testbit_unslice by lia.
      fold (pbit st (k mod 8 * 8 + b) (k / 8)).
      rewrite Hs by lia. rewrite E. unfold bit_of.
      divmod_facts (k mod 8 * 8 + b)%nat 8%nat.
      replace ((k mod 8 * 8 + b) / 8)%nat with (k mod 8)%nat by lia.
      replace ((k mod 8 * 8 + b) mod 8)%nat with b by lia.
      reflexivity.
Qed.

(** ** The round loop *)

Lemma snd_scalar_rounds n pt key :
  snd (for_range 1 n Scalar.round (pt, key)) = key_after n key.
Proof.
  unfold key_after. induction n as [|n IH].
  - reflexivity.
  - rewrite !for_range_S, <- IH.
    destruct (for_range 1 n Scalar.round (pt, key)) as [p k].
    unfold Scalar.round, Scalar.update_round_key, Scalar.sbox. reflexivity.
Qed.

Lemma snd_bitsliced_rounds n st key :
  snd (for_range 1 n Bitsliced.round (st, key)) = key_after n key.
Proof.
  unfold key_after. induction n as [|n IH].
  - reflexivity.
  - rewrite !for_range_S, <- IH.
    destruct (for_range 1 n Bitsliced.round (st, key)) as [p k].
    unfold Bitsliced.round, Bitsliced.update_round_key, Bitsliced.sbox. reflexivity.
Qed.

Lemma scalar_rounds_split n pt key :
  for_range 1 n Scalar.round (pt, key) = (scalar_after n pt key, key_after n key).
Proof.
  unfold scalar_after. rewrite <- snd_scalar_rounds with (pt := pt).
  apply surjective_pairing.
Qed.

Lemma bitsliced_rounds_split n st key :
  for_range 1 n Bitsliced.round (st, key) = (bitsliced_after n st key, key_after n key).
Proof.
  unfold bitsliced_after. rewrite <- snd_bitsliced_rounds with (st := st).
  apply surjective_pairing.
Qed.

Lemma key_after_S n key :
  key_after (S n) key
  = KeySchedule.update_round_key sbox_table (key_after n key) (Z.of_nat (S n)).
Proof. unfold key_after. rewrite for_range_S. f_equal. Qed.

Lemma scalar_after_S n pt key :
  scalar_after (S n) pt key
  = Scalar.pbox_layer (Scalar.sbox_layer
      (Scalar.add_round_key (scalar_after n pt key) (skipn 2 (key_after n key)))).
Proof.
  unfold scalar_after at 1. rewrite for_range_S, scalar_rounds_split.
  unfold Scalar.round. reflexivity.
Qed.

Lemma bitsliced_after_S n st key :
  bitsliced_after (S n) st key
  = Bitsliced.pbox_layer (Bitsliced.sbox_layer
      (Bitsliced.add_round_key (bitsliced_after n st key) (skipn 2 (key_after n key)))).
Proof.
  unfold bitsliced_after at 1. rewrite for_range_S, bitsliced_rounds_split.
  unfold Bitsliced.round. reflexivity.
Qed.

Lemma scalar_crypto_func_eq pt key :
  Scalar.crypto_func pt key
  = (Scalar.add_round_key (scalar_after 31 pt key) (skipn 2 (key_after 31 key)),
     key_after 31 key).
Proof.
  unfold Scalar.crypto_func. rewrite scalar_rounds_split. reflexivity.
Qed.

Lemma bitsliced_crypto_func_from_eq state0 pt key :
  Bitsliced.crypto_func_from state0 pt key
  = (Bitsliced.unslice
       (Bitsliced.add_round_key
          (bitsliced_after 31 (Bitsliced.enslice pt state0) key)
          (skipn 2 (key_after 31 key))) pt,
     key_after 31 key).
Proof.
  unfold Bitsliced.crypto_func_from. rewrite bitsliced_rounds_split. reflexivity.
Qed.

Lemma length_scalar_after n pt key :
  length pt = 8%nat -> length (scalar_after n pt key) = 8%nat.
Proof.
  intros Hl. induction n as [|n IH].
  - exact Hl.
  - rewrite scalar_after_S.
    apply bytes_ok_scalar_pbox_layer, bytes_ok_scalar_sbox_layer,
      bytes_ok_scalar_add_round_key, IH.
Qed.

Lemma bytes_ok_scalar_after n pt key :
  bytes_ok 8 pt -> bytes_ok 8 (scalar_after n pt key).
Proof.
  intros Hb. destruct n as [|n].
  - exact Hb.
  - rewrite scalar_after_S.
    apply bytes_ok_scalar_pbox_layer, bytes_ok_scalar_sbox_layer,
      bytes_ok_scalar_add_round_key, length_scalar_after, Hb.
Qed.

Lemma map_map_blocks (f g : list Z -> list Z) (bs : list (list Z)) :
  map g (map f bs) = map (fun b => g (f b)) bs.
Proof. apply map_map. Qed.

Lemma sim_after n blocks st key :
  length blocks = 32%nat -> Forall len8 blocks -> sim blocks st ->
  sim (map (fun b => scalar_after n b key) blocks) (bitsliced_after n st key).
Proof.
  intros Hn Hb Hs. induction n as [|n IH].
  - unfold scalar_after, bitsliced_after. rewrite for_range_0.
    cbv beta iota delta [fst]. rewrite map_id. exact Hs.
  - rewrite bitsliced_after_S.
    rewrite (map_ext _ _ (fun b => scalar_after_S n b key)).
    set (rk := skipn 2 (key_after n key)).
    rewrite <- (map_map_blocks (fun b => Scalar.sbox_layer
                   (Scalar.add_round_key (scalar_after n b key) rk)) Scalar.pbox_layer).
    rewrite <- (map_map_blocks (fun b => Scalar.add_round_key (scalar_after n b key) rk)
                   Scalar.sbox_layer).
    rewrite <- (map_map_blocks (fun b => scalar_after n b key)
                   (fun b => Scalar.add_round_key b rk)).
    assert (H0 : Forall len8 (map (fun b => scalar_after n b key) blocks)).
    { apply Forall_map_blocks. intros b Hin. apply length_scalar_after.
      rewrite Forall_forall in Hb. apply Hb. exact Hin. }
    assert (H1 : Forall (bytes_ok 8)
                   (map (fun b => Scalar.add_round_key b rk)
                      (map (fun b => scalar_after n b key) blocks))).
    { apply Forall_map_blocks. intros b Hin. apply bytes_ok_scalar_add_round_key.
      rewrite Forall_forall in H0. apply H0. exact Hin. }
    assert (H2 : Forall len8
                   (map Scalar.sbox_layer
                      (map (fun b => Scalar.add_round_key b rk)
                         (map (fun b => scalar_after n b key) blocks)))).
    { apply Forall_map_blocks. intros b Hin. apply bytes_ok_len8.
      apply bytes_ok_scalar_sbox_layer.
      rewrite Forall_forall in H1. apply H1. exact Hin. }
    apply sim_pbox_layer; [rewrite !length_map; exact Hn | exact H2 |].
    apply sim_sbox_layer; [rewrite !length_map; exact Hn | exact H1 |].
    apply sim_add_round_key; [rewrite !length_map; exact Hn | exact H0 |].
    exact IH.
Qed.

Lemma crypto_func_from_blocks state0 blocks key :
  length blocks = 32%nat -> Forall len8 blocks -> length state0 = 64%nat ->
  fst (Bitsliced.crypto_func_from state0 (concat blocks) key)
  = concat (map (fun b => fst (Scalar.crypto_func b key)) blocks).
Proof.
  intros Hn Hb Hs.
  rewrite bitsliced_crypto_func_from_eq.
  rewrite (map_ext _ _ (fun b => f_equal fst (scalar_crypto_func_eq b key))).
  cbv beta iota delta [fst].
  set (rk := skipn 2 (key_after 31 key)).
  rewrite <- (map_map_blocks (fun b => scalar_after 31 b key)
                 (fun b => Scalar.add_round_key b rk)).
  assert (H0 : Forall len8 (map (fun b => scalar_after 31 b key) blocks)).
  { apply Forall_map_blocks. intros b Hin. apply length_scalar_after.
    rewrite Forall_forall in Hb. apply Hb. exact Hin. }
  apply sim_unslice.
  - rewrite !length_map. exact Hn.
  - apply Forall_map_blocks. intros b Hin. apply bytes_ok_scalar_add_round_key.
    rewrite Forall_forall in H0. apply H0. exact Hin.
  - apply sim_add_round_key; [rewrite length_map; exact Hn | exact H0 |].
    apply sim_after; [exact Hn | exact Hb |].
    apply sim_enslice; assumption.
  - rewrite length_concat8 by exact Hb. lia.
Qed.

(** ** The key register as an 80-bit integer *)

Lemma testbit_is_u8_high x k : is_u8 x -> 8 <= k -> Z.testbit x k = false.
Proof. intros Hx Hk. apply (testbit_high 8); auto; lia. Qed.

Lemma bit_of_cons b t n :
  bit_of (b :: t) n
  = if (n <? 8)%nat then Z.testbit b (Z.of_nat n) else bit_of t (n - 8).
Proof.
  unfold bit_of.
  divmod_facts n 8%nat.
  destruct (Nat.ltb_spec n 8).
  - replace (n / 8)%nat with 0%nat by lia. replace (n mod 8)%nat with n by lia. reflexivity.
  - divmod_facts (n - 8)%nat 8%nat.
    replace (n / 8)%nat with (S ((n - 8) / 8)) by lia.
    replace ((n - 8) mod 8)%nat with (n mod 8)%nat by lia.
    reflexivity.
Qed.

Lemma testbit_le_bytes l n :
  Forall is_u8 l -> Z.testbit (le_bytes l) (Z.of_nat n) = bit_of l n.
Proof.
  intros H. revert n. induction H as [|b t Hb Ht IH]; intros n.
  - simpl le_bytes. rewrite Z.testbit_0_l. unfold bit_of, get.
    destruct (n / 8)%nat; simpl; rewrite Z.testbit_0_l; reflexivity.
  - change (le_bytes (b :: t)) with (Z.lor b (Z.shiftl (le_bytes t) 8)).
    rewrite Z.lor_spec, bit_of_cons.
    destruct (Nat.ltb_spec n 8).
    + rewrite Z.shiftl_spec_low by lia. apply orb_false_r.
    + rewrite testbit_is_u8_high by (auto; lia).
      rewrite Z.shiftl_spec by lia.
      replace (Z.of_nat n - 8) with (Z.of_nat (n - 8)) by lia.
      rewrite IH. reflexivity.
Qed.

Lemma bit_of_overflow l n : (8 * length l <= n)%nat -> bit_of l n = false.
Proof.
  intros H. unfold bit_of.
  divmod_facts n 8%nat.
  rewrite get_overflow by lia. apply Z.testbit_0_l.
Qed.

(** Two byte arrays with the same bits have the same value. *)
Lemma Z_ext_nat a b :
  (forall n, Z.testbit a (Z.of_nat n) = Z.testbit b (Z.of_nat n)) -> a = b.
Proof.
  intros H. apply Z.bits_inj'. intros n Hn.
  rewrite <- (Z2Nat.id n) by lia. apply H.
Qed.

Lemma get_skipn k l i : get (skipn k l) i = get l (k + i).
Proof. unfold get. apply nth_skipn. Qed.

Lemma bit_of_skipn2 l n : bit_of (skipn 2 l) n = bit_of l (n + 16).
Proof.
  unfold bit_of. rewrite get_skipn.
  divmod_facts n 8%nat.
  divmod_facts (n + 16)%nat 8%nat.
  replace ((n + 16) / 8)%nat with (2 + n / 8)%nat by lia.
  replace ((n + 16) mod 8)%nat with (n mod 8)%nat by lia.
  reflexivity.
Qed.

(** The 64 bits that a mixing step XORs into the block are bits 16..79 of
    the key register. *)
Lemma le_bytes_scalar_add_round_key pt key :
  bytes_ok 8 pt -> bytes_ok 10 key ->
  le_bytes (Scalar.add_round_key pt (skipn 2 key))
  = Z.lxor (le_bytes pt) (Z.shiftr (le_bytes key) 16).
Proof.
  intros [Hlp Hrp] [Hlk Hrk]. apply Z_ext_nat. intros n.
  destruct (bytes_ok_scalar_add_round_key pt (skipn 2 key) Hlp) as [Hl' Hr'].
  rewrite Z.lxor_spec, Z.shiftr_spec by lia.
  replace (Z.of_nat n + 16) with (Z.of_nat (n + 16)) by lia.
  rewrite !testbit_le_bytes by assumption.
  destruct (Nat.ltb_spec n 64).
  - rewrite bit_of_scalar_add_round_key, bit_of_skipn2 by assumption. reflexivity.
  - rewrite !bit_of_overflow by lia. reflexivity.
Qed.

(** ** The three steps of the key schedule *)

Lemma key10 (key : list Z) :
  length key = 10%nat ->
  exists k0 k1 k2 k3 k4 k5 k6 k7 k8 k9, key = [k0; k1; k2; k3; k4; k5; k6; k7; k8; k9].
Proof.
  intros H.
  do 10 (destruct key as [|? key]; [discriminate H|]).
  destruct key; [|discriminate H].
  repeat eexists.
Qed.

Lemma rotate_step_bytes k0 k1 k2 k3 k4 k5 k6 k7 k8 k9 :
  KeySchedule.rotate_step [k0; k1; k2; k3; k4; k5; k6; k7; k8; k9]
  = [rot_byte k2 k3; rot_byte k3 k4; rot_byte k4 k5; rot_byte k5 k6; rot_byte k6 k7;
     rot_byte k7 k8; rot_byte k8 k9; rot_byte k9 k0; rot_byte k0 k1; rot_byte k1 k2].
Proof. unfold KeySchedule.rotate_step, rot_byte. cbv [get upd nth]. reflexivity. Qed.

Lemma get_rotate_step key i :
  length key = 10%nat -> (i < 10)%nat ->
  get (KeySchedule.rotate_step key) i
  = rot_byte (get key ((i + 2) mod 10)) (get key ((i + 3) mod 10)).
Proof.
  intros Hl Hi.
  destruct (key10 key Hl) as (k0 & k1 & k2 & k3 & k4 & k5 & k6 & k7 & k8 & k9 & ->).
  rewrite rotate_step_bytes.
  do 10 (destruct i as [|i]; [reflexivity|]). lia.
Qed.

Lemma length_rotate_step key : length (KeySchedule.rotate_step key) = length key.
Proof. unfold KeySchedule.rotate_step. cbv zeta. rewrite !length_upd. reflexivity. Qed.

Lemma Forall_rotate_step key : Forall is_u8 key -> Forall is_u8 (KeySchedule.rotate_step key).
Proof.
  intros H. unfold KeySchedule.rotate_step. cbv zeta.
  repeat (apply Forall_upd; [|apply is_u8_u8]). exact H.
Qed.

Lemma testbit_rot_byte a b j :
  is_u8 a -> (j < 8)%nat ->
  Z.testbit (rot_byte a b) (Z.of_nat j)
  = if (j <? 5)%nat then Z.testbit a (Z.of_nat (j + 3)) else Z.testbit b (Z.of_nat (j - 5)).
Proof.
  intros Ha Hj. unfold rot_byte.
  rewrite tr_spec_u8, Z.lor_spec, Z.shiftr_spec by lia.
  ltb_holds j 8%nat.
  rewrite andb_true_l.
  replace (Z.of_nat j + 3) with (Z.of_nat (j + 3)) by lia.
  destruct (Nat.ltb_spec j 5).
  - rewrite Z.shiftl_spec_low by lia. apply orb_false_r.
  - rewrite testbit_is_u8_high by (auto; lia).
    rewrite Z.shiftl_spec by lia. simpl orb. f_equal. lia.
Qed.

(** Register bit [n] after the rotation is register bit [n + 19] before it. *)
Lemma bit_of_rotate_step key n :
  bytes_ok 10 key -> (n < 80)%nat ->
  bit_of (KeySchedule.rotate_step key) n = bit_of key ((n + 19) mod 80).
Proof.
  intros [Hl Hr] Hn. unfold bit_of.
  divmod_facts n 8%nat.
  rewrite get_rotate_step by lia.
  pose proof (Nat.mod_upper_bound (n / 8 + 2) 10).
  rewrite testbit_rot_byte by (try apply Forall_get; auto; lia).
  assert (E : (if (n mod 8 <? 5)%nat
               then (((n + 19) mod 80) / 8 =? (n / 8 + 2) mod 10)%nat
                    && (((n + 19) mod 80) mod 8 =? n mod 8 + 3)%nat
               else (((n + 19) mod 80) / 8 =? (n / 8 + 3) mod 10)%nat
                    && (((n + 19) mod 80) mod 8 =? n mod 8 - 5)%nat) = true).
  { revert n Hn H H0 H1.
    intros n Hn _ _ _. revert n Hn.
    apply (forall_lt 80). vm_compute. reflexivity. }
  destruct (n mod 8 <? 5)%nat;
    apply andb_true_iff in E; destruct E as [E1 E2];
    apply Nat.eqb_eq in E1; apply Nat.eqb_eq in E2; rewrite E1, E2; reflexivity.
Qed.

Lemma le_bytes_rotate_step key :
  bytes_ok 10 key ->
  le_bytes (KeySchedule.rotate_step key) = rotr 80 (le_bytes key) 19.
Proof.
  intros Hk. pose proof Hk as [Hl Hr]. apply Z_ext_nat. intros n.
  rewrite testbit_le_bytes by (apply Forall_rotate_step; exact Hr).
  unfold rotr. destruct (Nat.ltb_spec n 80).
  - rewrite Z.mod_pow2_bits_low by lia.
    rewrite Z.lor_spec, Z.shiftr_spec by lia.
    replace (Z.of_nat n + 19) with (Z.of_nat (n + 19)) by lia.
    rewrite testbit_le_bytes by exact Hr.
    rewrite bit_of_rotate_step by assumption.
    destruct (Nat.ltb_spec n 61).
    + rewrite Z.shiftl_spec_low by lia. rewrite orb_false_r.
      rewrite Nat.mod_small by lia. reflexivity.
    + rewrite (bit_of_overflow key (n + 19)) by lia.
      rewrite Z.shiftl_spec by lia.
      replace (Z.of_nat n - (80 - 19)) with (Z.of_nat (n - 61)) by lia.
      rewrite testbit_le_bytes by exact Hr. simpl orb.
      f_equal. divmod_facts (n + 19)%nat 80%nat. lia.
  - rewrite Z.mod_pow2_bits_high by lia.
    apply bit_of_overflow. rewrite length_rotate_step. lia.
Qed.

(** Rotating an 80-bit value right by 19 is rotating it left by 61. *)
Lemma rotr_19_rotl_61 x : rotr 80 x 19 = rotl 80 x 61.
Proof.
  unfold rotr, rotl. change (80 - 19) with 61. change (80 - 61) with 19.
  rewrite Z.lor_comm. reflexivity.
Qed.

Lemma length_sbox_step sbox key : length (KeySchedule.sbox_step sbox key) = length key.
Proof. unfold KeySchedule.sbox_step. cbv zeta. rewrite !length_upd. reflexivity. Qed.

Lemma Forall_sbox_step sbox key :
  Forall is_u8 key -> Forall is_u8 (KeySchedule.sbox_step sbox key).
Proof.
  intros H. unfold KeySchedule.sbox_step. cbv zeta.
  repeat (apply Forall_upd; [|apply is_u8_u8]). exact H.
Qed.

Lemma get_sbox_step_other sbox key i :
  i <> 9%nat -> get (KeySchedule.sbox_step sbox key) i = get key i.
Proof.
  intros Hi. unfold KeySchedule.sbox_step. cbv zeta.
  rewrite !get_upd_other by auto. reflexivity.
Qed.

Lemma length_counter_step key r : length (KeySchedule.counter_step key r) = length key.
Proof. unfold KeySchedule.counter_step. cbv zeta. rewrite !length_upd. reflexivity. Qed.

Lemma Forall_counter_step key r :
  Forall is_u8 key -> Forall is_u8 (KeySchedule.counter_step key r).
Proof.
  intros H. unfold KeySchedule.counter_step. cbv zeta.
  repeat (apply Forall_upd; [|apply is_u8_u8]). exact H.
Qed.

Lemma bytes_ok_update_round_key sbox key r :
  bytes_ok 10 key -> bytes_ok 10 (KeySchedule.update_round_key sbox key r).
Proof.
  intros [Hl Hr]. unfold KeySchedule.update_round_key. split.
  - rewrite length_counter_step, length_sbox_step, length_rotate_step. exact Hl.
  - apply Forall_counter_step, Forall_sbox_step, Forall_rotate_step, Hr.
Qed.

Lemma bytes_ok_key_after n key : bytes_ok 10 key -> bytes_ok 10 (key_after n key).
Proof.
  intros H. induction n as [|n IH].
  - exact H.
  - rewrite key_after_S. apply bytes_ok_update_round_key. exact IH.
Qed.

Lemma get_counter_step key r i :
  (3 <= length key)%nat ->
  get (KeySchedule.counter_step key r) i
  = if (i =? 1)%nat then u8 (Z.lxor (get key 1) (Z.shiftl r 7))
    else if (i =? 2)%nat then u8 (Z.lxor (get key 2) (Z.shiftr r 1))
    else get key i.
Proof.
  intros Hl. unfold KeySchedule.counter_step. cbv zeta.
  rewrite !get_upd, !length_upd.
  ltb_holds 2%nat (length key)%nat.
  ltb_holds 1%nat (length key)%nat.
  rewrite !andb_true_r.
  destruct (Nat.eqb_spec 2 i), (Nat.eqb_spec 1 i), (Nat.eqb_spec i 1), (Nat.eqb_spec i 2);
    try lia; try reflexivity.
Qed.

(** The counter step XORs [r << 15] into the register, for any [uint8_t r]. *)
Lemma bit_of_counter_step key r n :
  bytes_ok 10 key -> 0 <= r < 256 -> (n < 80)%nat ->
  bit_of (KeySchedule.counter_step key r) n
  = xorb (bit_of key n) (Z.testbit (Z.shiftl r 15) (Z.of_nat n)).
Proof.
  intros [Hl Hr] Hrr Hn. unfold bit_of.
  divmod_facts n 8%nat.
  rewrite get_counter_step by lia.
  assert (Hm : (n mod 8 <? 8)%nat = true) by (apply Nat.ltb_lt; lia).
  destruct (Nat.eqb_spec (n / 8) 1) as [E1|E1];
    [|destruct (Nat.eqb_spec (n / 8) 2) as [E2|E2]].
  - rewrite E1. rewrite tr_spec_u8, Hm, andb_true_l, Z.lxor_spec. f_equal.
    destruct (Z.ltb_spec (Z.of_nat (n mod 8)) 7).
    + rewrite !Z.shiftl_spec_low by lia. reflexivity.
    + rewrite !Z.shiftl_spec by lia. f_equal. lia.
  - rewrite E2. rewrite tr_spec_u8, Hm, andb_true_l, Z.lxor_spec. f_equal.
    rewrite Z.shiftr_spec, Z.shiftl_spec by lia. f_equal. lia.
  - destruct (Z.ltb_spec (Z.of_nat n) 15).
    + rewrite Z.shiftl_spec_low by lia. rewrite xorb_false_r. reflexivity.
    + rewrite Z.shiftl_spec by lia.
      rewrite (testbit_is_u8_high r) by (unfold is_u8; lia).
      rewrite xorb_false_r. reflexivity.
Qed.

Lemma le_bytes_counter_step key r :
  bytes_ok 10 key -> 0 <= r < 256 ->
  le_bytes (KeySchedule.counter_step key r) = Z.lxor (le_bytes key) (Z.shiftl r 15).
Proof.
  intros Hk Hrr. pose proof Hk as [Hl Hr]. apply Z_ext_nat. intros n.
  rewrite Z.lxor_spec.
  rewrite !testbit_le_bytes by (try apply Forall_counter_step; exact Hr).
  destruct (Nat.ltb_spec n 80).
  - apply bit_of_counter_step; assumption.
  - rewrite !bit_of_overflow by (rewrite ?length_counter_step; lia).
    rewrite Z.shiftl_spec by lia.
    rewrite (testbit_is_u8_high r) by (unfold is_u8; lia). reflexivity.
Qed.

(** ** The round orchestrator as a state machine *)

Section OrchestratorFacts.
Variable State : Type.
Variable mix : State -> list Z -> State.
Variables substitute permute : State -> State.
Variable advance : list Z -> Z -> list Z.

Local Abbreviation step := (orch_step State mix substitute permute advance).
Local Abbreviation run := (orch_run State mix substitute permute advance).
Local Abbreviation body := (orch_round State mix substitute permute advance).

Lemma orch_run_S n o : run (S n) o = step (run n o).
Proof.
  revert o. induction n as [|n IH]; intros o.
  - reflexivity.
  - change (run (S (S n)) o) with (run (S n) (step o)).
    rewrite IH. reflexivity.
Qed.

Lemma orch_run_rounds n s key :
  (n <= 30)%nat ->
  run n (ROUND 1 s key)
  = ROUND (S n) (fst (for_range 1 n body (s, key)))
      (snd (for_range 1 n body (s, key))).
Proof.
  induction n as [|n IH]; intros Hn.
  - reflexivity.
  - rewrite orch_run_S, IH by lia. rewrite for_range_S.
    unfold orch_step, orch_round at 1 3. cbv zeta.
    ltb_holds (S n)%nat 31%nat.
    reflexivity.
Qed.

Lemma orch_run_final s key :
  run 31 (ROUND 1 s key)
  = FINAL (fst (for_range 1 31 body (s, key)))
      (snd (for_range 1 31 body (s, key))).
Proof.
  rewrite orch_run_S, orch_run_rounds by lia. rewrite (for_range_S 1 30).
  unfold orch_step, orch_round at 1 3. cbv zeta.
  replace (31 <? 31)%nat with false by reflexivity.
  reflexivity.
Qed.

Lemma orch_run_done s key :
  run 32 (ROUND 1 s key)
  = DONE (mix (fst (for_range 1 31 body (s, key)))
                  (snd (for_range 1 31 body (s, key))))
      (snd (for_range 1 31 body (s, key))).
Proof. rewrite orch_run_S, orch_run_final. reflexivity. Qed.

End OrchestratorFacts.

Lemma for_range_ext {S : Type} lo n (f g : nat -> S -> S) s :
  (forall i x, f i x = g i x) -> for_range lo n f s = for_range lo n g s.
Proof.
  intros H. induction n as [|n IH].
  - reflexivity.
  - rewrite !for_range_S, IH. apply H.
Qed.

Lemma scalar_round_orch i st :
  orch_round (list Z) (fun s key => Scalar.add_round_key s (skipn 2 key))
    Scalar.sbox_layer Scalar.pbox_layer Scalar.update_round_key i st
  = Scalar.round i st.
Proof. destruct st as [pt key]. unfold orch_round, Scalar.round. reflexivity. Qed.

Lemma bitsliced_round_orch i st :
  orch_round (list Z) (fun s key => Bitsliced.add_round_key s (skipn 2 key))
    Bitsliced.sbox_layer Bitsliced.pbox_layer Bitsliced.update_round_key i st
  = Bitsliced.round i st.
Proof. destruct st as [pt key]. unfold orch_round, Bitsliced.round. reflexivity. Qed.

Lemma key_after_fold n key :
  key_after n key
  = fold_left (fun k i => KeySchedule.update_round_key sbox_table k (Z.of_nat i))
      (seq 1 n) key.
Proof. reflexivity. Qed.

(** ** Deciders for the well-formedness of concrete buffers *)

Lemma bytes_okb_ok n a : bytes_okb n a = true -> bytes_ok n a.
Proof.
  unfold bytes_okb, bytes_ok. intros H.
  apply andb_true_iff in H. destruct H as [Hl Hf]. split.
  - apply Nat.eqb_eq. exact Hl.
  - apply Forall_forall. intros x Hx. rewrite forallb_forall in Hf.
    specialize (Hf x Hx). unfold is_u8b in Hf. unfold is_u8. lia.
Qed.

Lemma planes_okb_ok a : planes_okb a = true -> planes_ok a.
Proof.
  unfold planes_okb, planes_ok. intros H.
  apply andb_true_iff in H. destruct H as [Hl Hf]. split.
  - apply Nat.eqb_eq. exact Hl.
  - apply Forall_forall. intros x Hx. rewrite forallb_forall in Hf.
    specialize (Hf x Hx). unfold is_u32b in Hf. unfold is_u32. lia.
Qed.

Lemma blocks_okb_ok n (bs : list (list Z)) :
  forallb (bytes_okb n) bs = true -> Forall (bytes_ok n) bs.
Proof.
  intros H. apply Forall_forall. intros b Hb. rewrite forallb_forall in H.
  apply bytes_okb_ok. apply H. exact Hb.
Qed.

Lemma nibble_of_bits x :
  0 <= x <= 15 ->
  x = Z.b2z (Z.testbit x 0) + 2 * Z.b2z (Z.testbit x 1)
      + 4 * Z.b2z (Z.testbit x 2) + 8 * Z.b2z (Z.testbit x 3).
Proof.
  intros Hx.
  assert (H : x = 0 \/ x = 1 \/ x = 2 \/ x = 3 \/ x = 4 \/ x = 5 \/ x = 6 \/ x = 7 \/
              x = 8 \/ x = 9 \/ x = 10 \/ x = 11 \/ x = 12 \/ x = 13 \/ x = 14 \/ x = 15)
    by lia.
  repeat (destruct H as [H|H]; [subst x; reflexivity|]).
  subst x; reflexivity.
Qed.

(** ** The stated properties *)

(** C1. For every key and every choice of [BITSLICE_WIDTH] plaintext blocks,
    encrypting each 8-byte block on its own with the scalar [crypto_func]
    gives the same ciphertext blocks as encrypting the concatenated buffer
    with the bit-sliced [crypto_func]; whatever the local [state] array holds
    on entry makes no difference. *)
Theorem bitsliced_matches_scalar (key : list Z) (blocks : list (list Z)) :
  length blocks = BITSLICE_WIDTH ->
  Forall (bytes_ok CRYPTO_IN_SIZE) blocks ->
  fst (Bitsliced.crypto_func (concat blocks) key)
  = concat (map (fun b => fst (Scalar.crypto_func b key)) blocks)
  /\ forall state0, length state0 = CRYPTO_IN_SIZE_BIT ->
       fst (Bitsliced.crypto_func_from state0 (concat blocks) key)
       = concat (map (fun b => fst (Scalar.crypto_func b key)) blocks).
Proof.
  unfold BITSLICE_WIDTH, CRYPTO_IN_SIZE, CRYPTO_IN_SIZE_BIT. intros Hn Hb.
  assert (Hb8 : Forall len8 blocks).
  { eapply Forall_impl; [|exact Hb]. apply bytes_ok_len8. }
  split.
  - unfold Bitsliced.crypto_func. apply crypto_func_from_blocks; auto.
  - intros state0 Hs. apply crypto_func_from_blocks; auto.
Qed.

Lemma bitsliced_matches_scalar_witness :
  length sample_blocks = BITSLICE_WIDTH
  /\ Forall (bytes_ok CRYPTO_IN_SIZE) sample_blocks
  /\ fst (Bitsliced.crypto_func (concat sample_blocks) sample_key)
     = concat (map (fun b => fst (Scalar.crypto_func b sample_key)) sample_blocks).
Proof.
  assert (Hl : length sample_blocks = BITSLICE_WIDTH) by reflexivity.
  assert (Hb : Forall (bytes_ok CRYPTO_IN_SIZE) sample_blocks)
    by (apply blocks_okb_ok; vm_compute; reflexivity).
  split; [exact Hl|]. split; [exact Hb|].
  exact (proj1 (bitsliced_matches_scalar sample_key sample_blocks Hl Hb)).
Defined.

(** C2. For every byte buffer [x] of length [8 * BITSLICE_WIDTH],
    [unslice (enslice x) = x], and for every array [y] of 64 bit-planes,
    [enslice (unslice y) = y]; [state_bs] and [pt] are the prior contents of
    the output arrays, which do not matter. *)
Theorem transpose_round_trip (x y state_bs pt : list Z) :
  bytes_ok (CRYPTO_IN_SIZE * BITSLICE_WIDTH) x ->
  planes_ok y ->
  length state_bs = CRYPTO_IN_SIZE_BIT ->
  length pt = (CRYPTO_IN_SIZE * BITSLICE_WIDTH)%nat ->
  Bitsliced.unslice (Bitsliced.enslice x state_bs) pt = x
  /\ Bitsliced.enslice (Bitsliced.unslice y pt) state_bs = y.
Proof.
  change (CRYPTO_IN_SIZE * BITSLICE_WIDTH)%nat with 256%nat.
  unfold CRYPTO_IN_SIZE_BIT. intros Hx Hy Hs Hp. split.
  - apply unslice_enslice; assumption.
  - apply enslice_unslice; assumption.
Qed.

Lemma transpose_round_trip_witness :
  Bitsliced.unslice (Bitsliced.enslice (concat sample_blocks) (repeat 0 64)) (repeat 0 256)
  = concat sample_blocks
  /\ Bitsliced.enslice (Bitsliced.unslice sample_planes (repeat 0 256)) (repeat 0 64)
     = sample_planes.
Proof.
  apply (transpose_round_trip (concat sample_blocks) sample_planes
           (repeat 0 64) (repeat 0 256)).
  - apply bytes_okb_ok. vm_compute. reflexivity.
  - apply planes_okb_ok. vm_compute. reflexivity.
  - reflexivity.
  - reflexivity.
Defined.

(** C3. For every 4-bit input [x] in [0,15]: in any lane [j] whose input
    planes [x0..x3] carry the bits 0..3 of [x], the four boolean functions
    [sbox0..sbox3] produce the bits 0..3 of the table entry [sbox[x]]. *)
Theorem sbox_functions_match_table (x x0 x1 x2 x3 : Z) (j : nat) :
  0 <= x <= 15 -> (j < BITSLICE_WIDTH)%nat ->
  Z.testbit x0 (Z.of_nat j) = Z.testbit x 0 ->
  Z.testbit x1 (Z.of_nat j) = Z.testbit x 1 ->
  Z.testbit x2 (Z.of_nat j) = Z.testbit x 2 ->
  Z.testbit x3 (Z.of_nat j) = Z.testbit x 3 ->
  Z.testbit (Bitsliced.sbox0 x0 x1 x2 x3) (Z.of_nat j)
    = Z.testbit (get Scalar.sbox (Z.to_nat x)) 0
  /\ Z.testbit (Bitsliced.sbox1 x0 x1 x2 x3) (Z.of_nat j)
    = Z.testbit (get Scalar.sbox (Z.to_nat x)) 1
  /\ Z.testbit (Bitsliced.sbox2 x0 x1 x2 x3) (Z.of_nat j)
    = Z.testbit (get Scalar.sbox (Z.to_nat x)) 2
  /\ Z.testbit (Bitsliced.sbox3 x0 x1 x2 x3) (Z.of_nat j)
    = Z.testbit (get Scalar.sbox (Z.to_nat x)) 3.
Proof.
  unfold BITSLICE_WIDTH. intros Hx Hj H0 H1 H2 H3.
  assert (E : get Scalar.sbox (Z.to_nat x)
              = sbox_of_bits (Z.testbit x0 (Z.of_nat j)) (Z.testbit x1 (Z.of_nat j))
                  (Z.testbit x2 (Z.of_nat j)) (Z.testbit x3 (Z.of_nat j))).
  { unfold sbox_of_bits, Scalar.sbox. rewrite H0, H1, H2, H3.
    rewrite <- nibble_of_bits by exact Hx. reflexivity. }
  rewrite E.
  pose proof (testbit_sbox_fn 0 x0 x1 x2 x3 j ltac:(lia) Hj) as T0.
  pose proof (testbit_sbox_fn 1 x0 x1 x2 x3 j ltac:(lia) Hj) as T1.
  pose proof (testbit_sbox_fn 2 x0 x1 x2 x3 j ltac:(lia) Hj) as T2.
  pose proof (testbit_sbox_fn 3 x0 x1 x2 x3 j ltac:(lia) Hj) as T3.
  repeat split; assumption.
Qed.

Lemma sbox_functions_match_table_witness :
  Z.testbit (Bitsliced.sbox0 0x80 0 0x80 0x80) 7 = Z.testbit (get Scalar.sbox 13) 0
  /\ Z.testbit (Bitsliced.sbox1 0x80 0 0x80 0x80) 7 = Z.testbit (get Scalar.sbox 13) 1
  /\ Z.testbit (Bitsliced.sbox2 0x80 0 0x80 0x80) 7 = Z.testbit (get Scalar.sbox 13) 2
  /\ Z.testbit (Bitsliced.sbox3 0x80 0 0x80 0x80) 7 = Z.testbit (get Scalar.sbox 13) 3.
Proof.
  apply (sbox_functions_match_table 13 0x80 0 0x80 0x80 7).
  - lia.
  - unfold BITSLICE_WIDTH. lia.
  - reflexivity.
  - reflexivity.
  - reflexivity.
  - reflexivity.
Defined.

(** C4 (as stated, refuted). Read as "the round key is the low 64 bits of
    the register", the property fails: already the first mixing of
    [crypto_func] on the key with only register bit 0 set leaves the all-zero
    block unchanged, whereas XORing the low 64 bits would set its bit 0. *)
Lemma round_key_not_low_64_bits :
  ~ (forall pt key n,
       bytes_ok CRYPTO_IN_SIZE pt -> bytes_ok CRYPTO_KEY_SIZE key -> (n <= 31)%nat ->
       let p := fst (for_range 1 n Scalar.round (pt, key)) in
       let k := snd (for_range 1 n Scalar.round (pt, key)) in
       le_bytes (Scalar.add_round_key p (skipn 2 k))
       = Z.lxor (le_bytes p) (le_bytes k mod 2 ^ 64)).
Proof.
  intros H.
  specialize (H (repeat 0 8) [1; 0; 0; 0; 0; 0; 0; 0; 0; 0] 0%nat).
  assert (H8 : bytes_ok CRYPTO_IN_SIZE (repeat 0 8)) by (apply bytes_okb_ok; reflexivity).
  assert (H10 : bytes_ok CRYPTO_KEY_SIZE [1; 0; 0; 0; 0; 0; 0; 0; 0; 0])
    by (apply bytes_okb_ok; reflexivity).
  specialize (H H8 H10 ltac:(lia)).
  vm_compute in H. discriminate H.
Qed.

(** C4 (amended). In every round of [crypto_func], and in the final mixing,
    the 64 bits XORed into the block state are the high 64 bits (bits 16
    to 79) of the 80-bit key register at the time of mixing: the round key is
    the bytes [key[2..9]], where [key[9]], the only byte the substitution
    step of the key schedule writes, is the most significant one. Here [n]
    counts the loop passes already done, [n = 31] being the final mixing. *)
Theorem round_key_is_high_64_bits (pt key : list Z) (n : nat) :
  bytes_ok CRYPTO_IN_SIZE pt -> bytes_ok CRYPTO_KEY_SIZE key -> (n <= 31)%nat ->
  let p := fst (for_range 1 n Scalar.round (pt, key)) in
  let k := snd (for_range 1 n Scalar.round (pt, key)) in
  let mixed := Scalar.add_round_key p (skipn 2 k) in
  le_bytes mixed = Z.lxor (le_bytes p) (Z.shiftr (le_bytes k) 16)
  /\ ((n < 31)%nat ->
      for_range 1 (S n) Scalar.round (pt, key)
      = (Scalar.pbox_layer (Scalar.sbox_layer mixed),
         Scalar.update_round_key k (Z.of_nat (S n))))
  /\ (n = 31%nat -> Scalar.crypto_func pt key = (mixed, k))
  /\ (forall i, i <> 9%nat -> get (KeySchedule.sbox_step Scalar.sbox k) i = get k i).
Proof.
  unfold CRYPTO_IN_SIZE, CRYPTO_KEY_SIZE. intros Hp Hk Hn. cbv zeta.
  rewrite scalar_rounds_split. cbv beta iota delta [fst snd].
  split; [|split; [|split]].
  - apply le_bytes_scalar_add_round_key.
    + apply bytes_ok_scalar_after. exact Hp.
    + apply bytes_ok_key_after. exact Hk.
  - intros _. rewrite scalar_rounds_split, scalar_after_S, key_after_S.
    unfold Scalar.update_round_key, Scalar.sbox. reflexivity.
  - intros ->. apply scalar_crypto_func_eq.
  - intros i Hi. apply get_sbox_step_other. exact Hi.
Qed.

Lemma round_key_is_high_64_bits_witness :
  le_bytes (Scalar.add_round_key
              (fst (for_range 1 3 Scalar.round (nth 5 sample_blocks [], sample_key)))
              (skipn 2 (snd (for_range 1 3 Scalar.round (nth 5 sample_blocks [], sample_key)))))
  = Z.lxor (le_bytes (fst (for_range 1 3 Scalar.round (nth 5 sample_blocks [], sample_key))))
      (Z.shiftr
         (le_bytes (snd (for_range 1 3 Scalar.round (nth 5 sample_blocks [], sample_key))))
         16).
Proof.
  refine (proj1 (round_key_is_high_64_bits (nth 5 sample_blocks []) sample_key 3 _ _ _)).
  - apply bytes_okb_ok. vm_compute. reflexivity.
  - apply bytes_okb_ok. vm_compute. reflexivity.
  - lia.
Defined.

(** C5 (as stated, refuted). Rotating the register right by 61 is not what
    step 1 does: on the key with only register bit 0 set the code moves that
    bit to position 61, a right rotation by 61 would move it to position 19. *)
Lemma rotate_step_not_right_61 :
  ~ (forall key, bytes_ok CRYPTO_KEY_SIZE key ->
       le_bytes (KeySchedule.rotate_step key) = rotr 80 (le_bytes key) 61).
Proof.
  intros H.
  specialize (H [1; 0; 0; 0; 0; 0; 0; 0; 0; 0]).
  assert (H10 : bytes_ok CRYPTO_KEY_SIZE [1; 0; 0; 0; 0; 0; 0; 0; 0; 0])
    by (apply bytes_okb_ok; reflexivity).
  specialize (H H10).
  vm_compute in H. discriminate H.
Qed.

(** C5 (amended). Step 1 of [update_round_key] rotates the 80-bit key
    register ([key[0]] least significant byte, [key[9]] most significant)
    right by 19 bit positions, equivalently left by 61, before the top-nibble
    substitution and the counter XOR. *)
Theorem rotate_step_right_19 (sbox key : list Z) (r : Z) :
  bytes_ok CRYPTO_KEY_SIZE key ->
  le_bytes (KeySchedule.rotate_step key) = rotr 80 (le_bytes key) 19
  /\ le_bytes (KeySchedule.rotate_step key) = rotl 80 (le_bytes key) 61
  /\ KeySchedule.update_round_key sbox key r
     = KeySchedule.counter_step (KeySchedule.sbox_step sbox (KeySchedule.rotate_step key)) r.
Proof.
  unfold CRYPTO_KEY_SIZE. intros Hk. split; [|split].
  - apply le_bytes_rotate_step. exact Hk.
  - rewrite <- rotr_19_rotl_61. apply le_bytes_rotate_step. exact Hk.
  - reflexivity.
Qed.

Lemma rotate_step_right_19_witness :
  le_bytes (KeySchedule.rotate_step sample_key) = rotr 80 (le_bytes sample_key) 19.
Proof.
  refine (proj1 (rotate_step_right_19 sbox_table sample_key 1 _)).
  apply bytes_okb_ok. vm_compute. reflexivity.
Defined.

(** C6. [crypto_func] performs exactly 31 passes of (mix round key,
    substitution layer, permutation layer, advance key schedule with the
    round counter rising from 1 to 31 by one), then exactly one final
    round-key mixing with no further substitution or permutation; on exit the
    key buffer holds the initial key advanced by exactly 31 key-schedule
    steps. Both implementations run the state machine ROUND 1 .. ROUND 31,
    FINAL: after [n < 31] transitions the machine is in ROUND [n + 1], after
    31 in FINAL, and after 32 it holds the result of [crypto_func]. *)
Theorem crypto_func_round_structure (pt key state0 : list Z) (n : nat) :
  (n < 31)%nat ->
  (exists s k, scalar_machine n (ROUND 1 pt key) = ROUND (S n) s k)
  /\ (exists s k, scalar_machine 31 (ROUND 1 pt key) = FINAL s k)
  /\ scalar_machine 32 (ROUND 1 pt key)
     = DONE (fst (Scalar.crypto_func pt key)) (snd (Scalar.crypto_func pt key))
  /\ snd (Scalar.crypto_func pt key)
     = fold_left (fun k i => Scalar.update_round_key k (Z.of_nat i)) (seq 1 31) key
  /\ (exists s k,
        bitsliced_machine n (ROUND 1 (Bitsliced.enslice pt state0) key) = ROUND (S n) s k)
  /\ (exists s k,
        bitsliced_machine 31 (ROUND 1 (Bitsliced.enslice pt state0) key) = FINAL s k)
  /\ (exists s,
        bitsliced_machine 32 (ROUND 1 (Bitsliced.enslice pt state0) key)
        = DONE s (snd (Bitsliced.crypto_func_from state0 pt key))
        /\ fst (Bitsliced.crypto_func_from state0 pt key) = Bitsliced.unslice s pt)
  /\ snd (Bitsliced.crypto_func_from state0 pt key)
     = fold_left (fun k i => Bitsliced.update_round_key k (Z.of_nat i)) (seq 1 31) key.
Proof.
  intros Hn. unfold scalar_machine, bitsliced_machine.
  split; [|split; [|split; [|split; [|split; [|split; [|split]]]]]].
  - rewrite orch_run_rounds by lia. eauto.
  - rewrite orch_run_final. eauto.
  - rewrite orch_run_done.
    rewrite (for_range_ext 1 31 _ Scalar.round _ scalar_round_orch).
    rewrite scalar_rounds_split, scalar_crypto_func_eq.
    cbv beta iota delta [fst snd]. reflexivity.
  - rewrite scalar_crypto_func_eq. cbv beta iota delta [snd].
    rewrite key_after_fold. reflexivity.
  - rewrite orch_run_rounds by lia. eauto.
  - rewrite orch_run_final. eauto.
  - rewrite orch_run_done.
    rewrite (for_range_ext 1 31 _ Bitsliced.round _ bitsliced_round_orch).
    rewrite bitsliced_rounds_split, bitsliced_crypto_func_from_eq.
    cbv beta iota delta [fst snd]. eexists. split; reflexivity.
  - rewrite bitsliced_crypto_func_from_eq. cbv beta iota delta [snd].
    rewrite key_after_fold. reflexivity.
Qed.

Lemma crypto_func_round_structure_witness :
  scalar_machine 32 (ROUND 1 (nth 5 sample_blocks []) sample_key)
  = DONE (fst (Scalar.crypto_func (nth 5 sample_blocks []) sample_key))
      (snd (Scalar.crypto_func (nth 5 sample_blocks []) sample_key)).
Proof.
  refine (proj1 (proj2 (proj2
    (crypto_func_round_structure (nth 5 sample_blocks []) sample_key (repeat 0 64) 7 _)))).
  lia.
Defined.

(** C7. Step 3 of [update_round_key] XORs the 5-bit round counter [r]
    (with [r] in [1,31]) into bits 19 through 15 of the 80-bit key register:
    counter bit [k] lands at register bit [15 + k] for [k] in [0,4], and no
    other register bit changes in that step. *)
Theorem counter_step_bits_15_to_19 (sbox key : list Z) (r n : Z) :
  bytes_ok CRYPTO_KEY_SIZE key -> 1 <= r <= 31 -> 0 <= n ->
  Z.testbit (le_bytes (KeySchedule.counter_step key r)) n
  = (if (15 <=? n) && (n <=? 19)
     then xorb (Z.testbit (le_bytes key) n) (Z.testbit r (n - 15))
     else Z.testbit (le_bytes key) n)
  /\ KeySchedule.update_round_key sbox key r
     = KeySchedule.counter_step (KeySchedule.sbox_step sbox (KeySchedule.rotate_step key)) r.
Proof.
  unfold CRYPTO_KEY_SIZE. intros Hk Hr Hn. split; [|reflexivity].
  rewrite le_bytes_counter_step by (auto; lia).
  rewrite Z.lxor_spec.
  destruct (Z.leb_spec 15 n); [destruct (Z.leb_spec n 19)|]; cbv [andb].
  - rewrite Z.shiftl_spec by lia. reflexivity.
  - rewrite Z.shiftl_spec by lia.
    rewrite (testbit_high 5 r) by lia. apply xorb_false_r.
  - rewrite Z.shiftl_spec_low by lia. apply xorb_false_r.
Qed.

Lemma counter_step_bits_15_to_19_witness :
  Z.testbit (le_bytes (KeySchedule.counter_step sample_key 21)) 17
  = xorb (Z.testbit (le_bytes sample_key) 17) (Z.testbit 21 2).
Proof.
  refine (proj1 (counter_step_bits_15_to_19 sbox_table sample_key 21 17 _ _ _)).
  - apply bytes_okb_ok. vm_compute. reflexivity.
  - lia.
  - lia.
Defined.

(** C8. The permutation [b |-> b / 4 + (b mod 4) * 16] that [pbox_layer]
    implements is a bijection on {0,...,63}: it stays inside the range, no two
    source positions share a destination, and every destination is reached.
    Both files compute the same position, and each [pbox_layer] moves what
    sits at position [b] (a bit, or a whole bit-plane) to that position. *)
Theorem pbox_pos_bijective (b b' d : nat) (s st : list Z) :
  (b < 64)%nat -> (b' < 64)%nat -> (d < 64)%nat ->
  length s = 8%nat -> length st = 64%nat ->
  (Scalar.pbox_pos b < 64)%nat
  /\ (Scalar.pbox_pos b = Scalar.pbox_pos b' -> b = b')
  /\ (exists a, (a < 64)%nat /\ Scalar.pbox_pos a = d)
  /\ Bitsliced.pbox_pos b = Scalar.pbox_pos b
  /\ bit_of (Scalar.pbox_layer s) (Scalar.pbox_pos b) = bit_of s b
  /\ get (Bitsliced.pbox_layer st) (Bitsliced.pbox_pos b) = get st b.
Proof.
  intros Hb Hb' Hd Hs Hst.
  split; [|split; [|split; [|split; [|split]]]].
  - apply pbox_pos_lt. exact Hb.
  - intros E. rewrite <- (pbox_inv_pos b), <- (pbox_inv_pos b') by assumption.
    rewrite E. reflexivity.
  - exists (pbox_inv d). split; [apply pbox_inv_lt | apply pbox_pos_inv]; exact Hd.
  - reflexivity.
  - rewrite bit_of_scalar_pbox_layer by (auto using pbox_pos_lt).
    rewrite pbox_inv_pos by exact Hb. reflexivity.
  - rewrite bitsliced_pbox_pos_eq.
    rewrite get_bitsliced_pbox_layer by (auto using pbox_pos_lt).
    rewrite pbox_inv_pos by exact Hb. reflexivity.
Qed.

Lemma pbox_pos_bijective_witness :
  (Scalar.pbox_pos 62 < 64)%nat
  /\ (Scalar.pbox_pos 62 = Scalar.pbox_pos 47 -> 62 = 47)%nat
  /\ (exists a, (a < 64)%nat /\ Scalar.pbox_pos a = 33%nat)
  /\ Bitsliced.pbox_pos 62 = Scalar.pbox_pos 62
  /\ bit_of (Scalar.pbox_layer (nth 5 sample_blocks [])) (Scalar.pbox_pos 62)
     = bit_of (nth 5 sample_blocks []) 62
  /\ get (Bitsliced.pbox_layer sample_planes) (Bitsliced.pbox_pos 62)
     = get sample_planes 62.
Proof.
  apply (pbox_pos_bijective 62 47 33 (nth 5 sample_blocks []) sample_planes).
  - lia.
  - lia.
  - lia.
  - reflexivity.
  - reflexivity.
Defined.

(** C9. The fixed 16-entry substitution table used by the substitution layer
    and by the key schedule (the file-level table of the scalar file and the
    local one of the bit-sliced [update_round_key]) is a permutation of the
    values {0,...,15}. *)
Theorem sbox_is_permutation :
  Permutation Scalar.sbox (map Z.of_nat (seq 0 16))
  /\ Permutation Bitsliced.sbox (map Z.of_nat (seq 0 16)).
Proof.
  assert (P : Permutation sbox_table (map Z.of_nat (seq 0 16))).
  { apply NoDup_Permutation.
    - unfold sbox_table.
      repeat (apply NoDup_cons; [cbv [In]; intros H; lia|]). apply NoDup_nil.
    - cbv [seq map Z.of_nat Pos.of_succ_nat Pos.succ].
      repeat (apply NoDup_cons; [cbv [In]; intros H; lia|]). apply NoDup_nil.
    - intros x. cbv [sbox_table seq map In]. cbv [Z.of_nat Pos.of_succ_nat Pos.succ].
      split; intros H; lia. }
  split; exact P.
Qed.

(** C10. The final key register produced by [crypto_func] depends only on
    the initial key, not on the plaintext: two runs on any two plaintext
    buffers and the same initial key leave identical key buffers, in the
    scalar and in the bit-sliced implementation (and the two agree). *)
Theorem final_key_independent_of_plaintext (pt1 pt2 key : list Z) :
  snd (Scalar.crypto_func pt1 key) = snd (Scalar.crypto_func pt2 key)
  /\ snd (Bitsliced.crypto_func pt1 key) = snd (Bitsliced.crypto_func pt2 key)
  /\ snd (Bitsliced.crypto_func pt1 key) = snd (Scalar.crypto_func pt2 key).
Proof.
  assert (S : forall pt, snd (Scalar.crypto_func pt key) = key_after 31 key).
  { intros pt. rewrite scalar_crypto_func_eq. cbv beta iota delta [snd]. reflexivity. }
  assert (B : forall pt, snd (Bitsliced.crypto_func pt key) = key_after 31 key).
  { intros pt. unfold Bitsliced.crypto_func. rewrite bitsliced_crypto_func_from_eq.
    cbv beta iota delta [snd]. reflexivity. }
  rewrite (S pt1), (S pt2), (B pt1), (B pt2). auto.
Qed.

(** ** Further properties of the code *)

(** Byte arrays of the same length with the same bits are equal. *)
Lemma bytes_ext n a b :
  bytes_ok n a -> bytes_ok n b ->
  (forall m, (m < 8 * n)%nat -> bit_of a m = bit_of b m) ->
  a = b.
Proof.
  intros [Hla Hra] [Hlb Hrb] H. apply list_ext; [lia|].
  intros i Hi. apply u8_ext.
  - apply Forall_get; [exact Hra | exact Hi].
  - apply Forall_get; [exact Hrb | lia].
  - intros k Hk. specialize (H (8 * i + k)%nat ltac:(lia)). unfold bit_of in H.
    divmod_facts (8 * i + k)%nat 8%nat.
    replace ((8 * i + k) / 8)%nat with i in H by lia.
    replace ((8 * i + k) mod 8)%nat with k in H by lia.
    exact H.
Qed.







Lemma u8_lxor_twice x k : is_u8 x -> u8 (Z.lxor (u8 (Z.lxor x k)) k) = x.
Proof.
  intros Hx. apply u8_ext; [apply is_u8_u8 | exact Hx |].
  intros j Hj. rewrite tr_spec_u8, Z.lxor_spec, tr_spec_u8, Z.lxor_spec.
  ltb_holds j 8%nat. rewrite !andb_true_l.
  destruct (Z.testbit x (Z.of_nat j)), (Z.testbit k (Z.of_nat j)); reflexivity.
Qed.

Lemma u32_lxor_twice x k : is_u32 x -> u32 (Z.lxor (u32 (Z.lxor x k)) k) = x.
Proof.
  intros Hx. apply u32_ext; [apply is_u32_u32 | exact Hx |].
  intros j Hj. rewrite tr_spec_u32, Z.lxor_spec, tr_spec_u32, Z.lxor_spec.
  ltb_holds j 32%nat. rewrite !andb_true_l.
  destruct (Z.testbit x (Z.of_nat j)), (Z.testbit k (Z.of_nat j)); reflexivity.
Qed.

(** X3. The scalar [add_round_key] undoes itself: mixing the same round key
    into an 8-byte block twice gives the block back. *)
Theorem scalar_add_round_key_involutive (pt roundkey : list Z) :
  bytes_ok CRYPTO_IN_SIZE pt ->
  Scalar.add_round_key (Scalar.add_round_key pt roundkey) roundkey = pt.
Proof.
  unfold CRYPTO_IN_SIZE. intros [Hl Hr].
  rewrite !scalar_add_round_key_cellwise. apply list_ext.
  - rewrite !length_cellwise. reflexivity.
  - intros i Hi. rewrite !length_cellwise in Hi.
    rewrite !get_cellwise by (rewrite ?length_cellwise; lia).
    ltb_holds i 8%nat.
    apply u8_lxor_twice. apply Forall_get; [exact Hr | lia].
Qed.

Lemma scalar_add_round_key_involutive_witness :
  Scalar.add_round_key (Scalar.add_round_key (nth 5 sample_blocks []) (skipn 2 sample_key))
    (skipn 2 sample_key)
  = nth 5 sample_blocks [].
Proof.
  apply (scalar_add_round_key_involutive (nth 5 sample_blocks []) (skipn 2 sample_key)).
  apply bytes_okb_ok. vm_compute. reflexivity.
Defined.

(** X4. The bit-sliced [add_round_key] undoes itself on a state of 64
    32-bit planes. *)
Theorem bitsliced_add_round_key_involutive (state_bs roundkey : list Z) :
  planes_ok state_bs ->
  Bitsliced.add_round_key (Bitsliced.add_round_key state_bs roundkey) roundkey = state_bs.
Proof.
  intros [Hl Hr].
  rewrite !bitsliced_add_round_key_cellwise. apply list_ext.
  - rewrite !length_cellwise. reflexivity.
  - intros i Hi. rewrite !length_cellwise in Hi.
    rewrite !get_cellwise by (rewrite ?length_cellwise; lia).
    ltb_holds i 64%nat.
    apply u32_lxor_twice. apply Forall_get; [exact Hr | lia].
Qed.

Lemma bitsliced_add_round_key_involutive_witness :
  Bitsliced.add_round_key (Bitsliced.add_round_key sample_planes (skipn 2 sample_key))
    (skipn 2 sample_key)
  = sample_planes.
Proof.
  apply (bitsliced_add_round_key_involutive sample_planes (skipn 2 sample_key)).
  apply planes_okb_ok. vm_compute. reflexivity.
Defined.






(** X7. The scalar permutation layer is linear over XOR: permuting a block
    into which a round key was mixed equals mixing the permuted round key
    into the permuted block. *)
Theorem scalar_pbox_layer_xor (s roundkey : list Z) :
  bytes_ok CRYPTO_IN_SIZE s -> bytes_ok CRYPTO_IN_SIZE roundkey ->
  Scalar.pbox_layer (Scalar.add_round_key s roundkey)
  = Scalar.add_round_key (Scalar.pbox_layer s) (Scalar.pbox_layer roundkey).
Proof.
  unfold CRYPTO_IN_SIZE. intros [Hls Hrs] [Hlk Hrk].
  pose proof (bytes_ok_scalar_add_round_key s roundkey Hls) as [Hl1 _].
  pose proof (bytes_ok_scalar_pbox_layer s Hls) as [Hl2 _].
  apply (bytes_ext 8).
  - apply bytes_ok_scalar_pbox_layer. exact Hl1.
  - apply bytes_ok_scalar_add_round_key. exact Hl2.
  - intros m Hm.
    rewrite bit_of_scalar_pbox_layer by (auto; lia).
    rewrite !bit_of_scalar_add_round_key by (auto using pbox_inv_lt; try lia).
    rewrite !bit_of_scalar_pbox_layer by (auto; lia).
    reflexivity.
Qed.

Lemma scalar_pbox_layer_xor_witness :
  Scalar.pbox_layer (Scalar.add_round_key (nth 5 sample_blocks []) (nth 9 sample_blocks []))
  = Scalar.add_round_key (Scalar.pbox_layer (nth 5 sample_blocks []))
      (Scalar.pbox_layer (nth 9 sample_blocks [])).
Proof.
  apply (scalar_pbox_layer_xor (nth 5 sample_blocks []) (nth 9 sample_blocks [])).
  - apply bytes_okb_ok. vm_compute. reflexivity.
  - apply bytes_okb_ok. vm_compute. reflexivity.
Defined.

Lemma sbox_byte_injective x y : is_u8 x -> is_u8 y -> sbox_byte x = sbox_byte y -> x = y.
Proof.
  intros Hx Hy E.
  assert (H : forallb (fun y => implb (sbox_byte x =? sbox_byte y) (x =? y))
                (map Z.of_nat (seq 0 256)) = true).
  { revert x Hx E. intros x Hx _. revert x Hx.
    apply (forall_u8 (fun x => forallb (fun y => implb (sbox_byte x =? sbox_byte y) (x =? y))
                                 (map Z.of_nat (seq 0 256)))).
    vm_compute. reflexivity. }
  pose proof (forall_u8 _ H y Hy) as Hxy. cbv beta in Hxy.
  rewrite E, Z.eqb_refl in Hxy. simpl implb in Hxy. apply Z.eqb_eq. exact Hxy.
Qed.

Lemma get_scalar_sbox_layer s i :
  length s = 8%nat -> (i < 8)%nat -> get (Scalar.sbox_layer s) i = sbox_byte (get s i).
Proof.
  intros Hl Hi. rewrite scalar_sbox_layer_cellwise, get_cellwise by lia.
  ltb_holds i 8%nat. reflexivity.
Qed.

Lemma scalar_sbox_layer_inj (s1 s2 : list Z) :
  bytes_ok 8 s1 -> bytes_ok 8 s2 ->
  Scalar.sbox_layer s1 = Scalar.sbox_layer s2 -> s1 = s2.
Proof.
  intros [Hl1 Hr1] [Hl2 Hr2] E. apply list_ext; [lia|].
  intros i Hi.
  assert (Eg : get (Scalar.sbox_layer s1) i = get (Scalar.sbox_layer s2) i)
    by (rewrite E; reflexivity).
  rewrite (get_scalar_sbox_layer s1), (get_scalar_sbox_layer s2) in Eg by lia.
  apply sbox_byte_injective;
    [apply Forall_get; auto; lia | apply Forall_get; auto; lia | exact Eg].
Qed.

(** X8. The scalar substitution layer loses nothing: two 8-byte states have
    the same image under [sbox_layer] exactly when they are the same state. *)
Theorem scalar_sbox_layer_injective (s1 s2 : list Z) :
  bytes_ok CRYPTO_IN_SIZE s1 -> bytes_ok CRYPTO_IN_SIZE s2 ->
  (Scalar.sbox_layer s1 = Scalar.sbox_layer s2 <-> s1 = s2).
Proof.
  unfold CRYPTO_IN_SIZE. intros H1 H2. split.
  - apply scalar_sbox_layer_inj; assumption.
  - intros ->. reflexivity.
Qed.

Lemma scalar_sbox_layer_injective_witness :
  Scalar.sbox_layer (nth 5 sample_blocks []) = Scalar.sbox_layer (nth 9 sample_blocks [])
  <-> nth 5 sample_blocks [] = nth 9 sample_blocks [].
Proof.
  apply (scalar_sbox_layer_injective (nth 5 sample_blocks []) (nth 9 sample_blocks [])).
  - apply bytes_okb_ok. vm_compute. reflexivity.
  - apply bytes_okb_ok. vm_compute. reflexivity.
Defined.

Lemma sbox_of_bits_injective b0 b1 b2 b3 c0 c1 c2 c3 :
  sbox_of_bits b0 b1 b2 b3 = sbox_of_bits c0 c1 c2 c3 ->
  b0 = c0 /\ b1 = c1 /\ b2 = c2 /\ b3 = c3.
Proof.
  destruct b0, b1, b2, b3, c0, c1, c2, c3; vm_compute; intros H;
    try discriminate H; repeat split; reflexivity.
Qed.

Lemma sbox_of_bits_from_testbits b0 b1 b2 b3 :
  sbox_of_bits b0 b1 b2 b3
  = Z.b2z (Z.testbit (sbox_of_bits b0 b1 b2 b3) 0)
    + 2 * Z.b2z (Z.testbit (sbox_of_bits b0 b1 b2 b3) 1)
    + 4 * Z.b2z (Z.testbit (sbox_of_bits b0 b1 b2 b3) 2)
    + 8 * Z.b2z (Z.testbit (sbox_of_bits b0 b1 b2 b3) 3).
Proof. destruct b0, b1, b2, b3; reflexivity. Qed.

Lemma is_u32_sbox_fn k x0 x1 x2 x3 : is_u32 (sbox_fn k x0 x1 x2 x3).
Proof.
  destruct k as [|[|[|k]]]; unfold sbox_fn, Bitsliced.sbox0, Bitsliced.sbox1,
    Bitsliced.sbox2, Bitsliced.sbox3; cbv zeta; apply is_u32_u32.
Qed.

Lemma planes_ok_bitsliced_sbox_layer st :
  length st = 64%nat -> planes_ok (Bitsliced.sbox_layer st).
Proof.
  intros Hl. split.
  - rewrite length_bitsliced_sbox_layer. exact Hl.
  - apply Forall_of_get. intros i Hi. rewrite length_bitsliced_sbox_layer in Hi.
    rewrite get_bitsliced_sbox_layer by lia. apply is_u32_sbox_fn.
Qed.

Lemma planes_ok_bitsliced_add_round_key st rk :
  length st = 64%nat -> planes_ok (Bitsliced.add_round_key st rk).
Proof.
  intros Hl. rewrite bitsliced_add_round_key_cellwise. split.
  - rewrite length_cellwise. exact Hl.
  - apply Forall_cellwise; [lia | intros; apply is_u32_u32].
Qed.

Lemma planes_ok_bitsliced_pbox_layer st :
  planes_ok st -> planes_ok (Bitsliced.pbox_layer st).
Proof.
  intros [Hl Hr]. split.
  - rewrite length_bitsliced_pbox_layer. exact Hl.
  - apply Forall_of_get. intros i Hi. rewrite length_bitsliced_pbox_layer in Hi.
    rewrite get_bitsliced_pbox_layer by lia.
    apply Forall_get; [exact Hr|]. rewrite Hl. apply pbox_inv_lt. lia.
Qed.

Lemma planes_ext a b :
  planes_ok a -> planes_ok b ->
  (forall i j, (i < 64)%nat -> (j < 32)%nat -> pbit a i j = pbit b i j) ->
  a = b.
Proof.
  intros [Hla Hra] [Hlb Hrb] H. apply list_ext; [lia|].
  intros i Hi. apply u32_ext.
  - apply Forall_get; [exact Hra | exact Hi].
  - apply Forall_get; [exact Hrb | lia].
  - intros j Hj. apply H; lia.
Qed.

Lemma bitsliced_sbox_layer_inj (st1 st2 : list Z) :
  planes_ok st1 -> planes_ok st2 ->
  Bitsliced.sbox_layer st1 = Bitsliced.sbox_layer st2 -> st1 = st2.
Proof.
  intros H1 H2 E. pose proof H1 as [Hl1 _]. pose proof H2 as [Hl2 _].
  apply planes_ext; [exact H1 | exact H2 |].
  intros i j Hi Hj. divmod_facts i 4%nat.
  assert (T : forall k, (k < 4)%nat ->
            Z.testbit (sbox_of_bits (pbit st1 (i / 4 * 4 + 0) j) (pbit st1 (i / 4 * 4 + 1) j)
                         (pbit st1 (i / 4 * 4 + 2) j) (pbit st1 (i / 4 * 4 + 3) j)) (Z.of_nat k)
            = Z.testbit (sbox_of_bits (pbit st2 (i / 4 * 4 + 0) j) (pbit st2 (i / 4 * 4 + 1) j)
                           (pbit st2 (i / 4 * 4 + 2) j) (pbit st2 (i / 4 * 4 + 3) j)) (Z.of_nat k)).
  { intros k Hk. unfold pbit.
    rewrite <- !testbit_sbox_fn by assumption.
    divmod_facts (i / 4 * 4 + k)%nat 4%nat.
    assert (Ed : ((i / 4 * 4 + k) / 4 = i / 4)%nat) by lia.
    assert (Em : ((i / 4 * 4 + k) mod 4 = k)%nat) by lia.
    pose proof (get_bitsliced_sbox_layer st1 (i / 4 * 4 + k) Hl1 ltac:(lia)) as G1.
    pose proof (get_bitsliced_sbox_layer st2 (i / 4 * 4 + k) Hl2 ltac:(lia)) as G2.
    rewrite Ed, Em in G1, G2. rewrite <- G1, <- G2, E. reflexivity. }
  assert (Es : sbox_of_bits (pbit st1 (i / 4 * 4 + 0) j) (pbit st1 (i / 4 * 4 + 1) j)
                 (pbit st1 (i / 4 * 4 + 2) j) (pbit st1 (i / 4 * 4 + 3) j)
               = sbox_of_bits (pbit st2 (i / 4 * 4 + 0) j) (pbit st2 (i / 4 * 4 + 1) j)
                   (pbit st2 (i / 4 * 4 + 2) j) (pbit st2 (i / 4 * 4 + 3) j)).
  { rewrite sbox_of_bits_from_testbits. symmetry. rewrite sbox_of_bits_from_testbits. symmetry.
    pose proof (T 0%nat ltac:(lia)) as T0. pose proof (T 1%nat ltac:(lia)) as T1.
    pose proof (T 2%nat ltac:(lia)) as T2. pose proof (T 3%nat ltac:(lia)) as T3.
    change (Z.of_nat 0) with 0 in T0. change (Z.of_nat 1) with 1 in T1.
    change (Z.of_nat 2) with 2 in T2. change (Z.of_nat 3) with 3 in T3.
    rewrite T0, T1, T2, T3. reflexivity. }
  apply sbox_of_bits_injective in Es. destruct Es as (E0 & E1 & E2 & E3).
  assert (Ei : (i = i / 4 * 4 + 0 \/ i = i / 4 * 4 + 1 \/ i = i / 4 * 4 + 2
                \/ i = i / 4 * 4 + 3)%nat) by lia.
  destruct Ei as [Ei|[Ei|[Ei|Ei]]]; rewrite Ei; assumption.
Qed.

(** X9. The bit-sliced substitution layer loses nothing either: two states
    of 64 32-bit planes have the same image under [sbox_layer] exactly when
    they are the same state. *)
Theorem bitsliced_sbox_layer_injective (st1 st2 : list Z) :
  planes_ok st1 -> planes_ok st2 ->
  (Bitsliced.sbox_layer st1 = Bitsliced.sbox_layer st2 <-> st1 = st2).
Proof.
  intros H1 H2. split.
  - apply bitsliced_sbox_layer_inj; assumption.
  - intros ->. reflexivity.
Qed.

Lemma bitsliced_sbox_layer_injective_witness :
  Bitsliced.sbox_layer sample_planes = Bitsliced.sbox_layer (Bitsliced.pbox_layer sample_planes)
  <-> sample_planes = Bitsliced.pbox_layer sample_planes.
Proof.
  apply (bitsliced_sbox_layer_injective sample_planes (Bitsliced.pbox_layer sample_planes)).
  - apply planes_okb_ok. vm_compute. reflexivity.
  - apply planes_okb_ok. vm_compute. reflexivity.
Defined.

(** What the substitution step of the key schedule stores in [key[9]]. *)
Lemma get_sbox_step_9 sbox key :
  length key = 10%nat ->
  get (KeySchedule.sbox_step sbox key) 9
  = u8 (Z.lor (u8 (Z.land (get key 9) 0x0F))
              (Z.shiftl (get sbox (Z.to_nat (Z.shiftr (get key 9) 4))) 4)).
Proof.
  intros Hl. unfold KeySchedule.sbox_step. cbv zeta.
  rewrite !get_upd, !length_upd, Hl. reflexivity.
Qed.

Lemma sbox_table_range i : 0 <= get sbox_table i < 16.
Proof.
  unfold get, sbox_table.
  do 16 (destruct i as [|i]; [simpl; lia|]).
  destruct i; simpl; lia.
Qed.

Lemma testbit_sbox_table_high i k : 4 <= k -> Z.testbit (get sbox_table i) k = false.
Proof.
  intros Hk. apply (testbit_high 4); [lia | apply sbox_table_range | exact Hk].
Qed.

Lemma testbit_15 j : Z.testbit 0x0F (Z.of_nat j) = (j <? 4)%nat.
Proof.
  change 0x0F with (Z.ones 4).
  destruct (Nat.ltb_spec j 4).
  - apply Z.ones_spec_low. lia.
  - apply Z.ones_spec_high. lia.
Qed.

Lemma testbit_sbox_step_9 key j :
  length key = 10%nat -> (j < 8)%nat ->
  Z.testbit (get (KeySchedule.sbox_step sbox_table key) 9) (Z.of_nat j)
  = if (j <? 4)%nat then Z.testbit (get key 9) (Z.of_nat j)
    else Z.testbit (get sbox_table (Z.to_nat (Z.shiftr (get key 9) 4))) (Z.of_nat (j - 4)).
Proof.
  intros Hl Hj. rewrite get_sbox_step_9 by exact Hl.
  rewrite tr_spec_u8, Z.lor_spec, tr_spec_u8, Z.land_spec, testbit_15.
  ltb_holds j 8%nat. rewrite !andb_true_l.
  destruct (Nat.ltb_spec j 4).
  - rewrite Z.shiftl_spec_low by lia. rewrite andb_true_r, orb_false_r. reflexivity.
  - rewrite Z.shiftl_spec by lia. rewrite andb_false_r. simpl orb. f_equal. lia.
Qed.

Lemma shiftr_le_bytes_76 key :
  bytes_ok 10 key -> Z.shiftr (le_bytes key) 76 = Z.shiftr (get key 9) 4.
Proof.
  intros [Hl Hr]. apply Z_ext_nat. intros m.
  rewrite !Z.shiftr_spec by lia.
  replace (Z.of_nat m + 76) with (Z.of_nat (m + 76)) by lia.
  rewrite testbit_le_bytes by exact Hr.
  destruct (Nat.ltb_spec m 4).
  - unfold bit_of. divmod_facts (m + 76)%nat 8%nat.
    replace ((m + 76) / 8)%nat with 9%nat by lia.
    replace ((m + 76) mod 8)%nat with (m + 4)%nat by lia.
    f_equal. lia.
  - rewrite bit_of_overflow by lia.
    symmetry. apply testbit_is_u8_high; [apply Forall_get; auto; lia | lia].
Qed.

(** The substitution step on the register: the top nibble (bits 76..79) goes
    through the table, the 76 bits below stay. *)
Lemma le_bytes_sbox_step key :
  bytes_ok 10 key ->
  le_bytes (KeySchedule.sbox_step sbox_table key)
  = Z.lor (Z.land (le_bytes key) (Z.ones 76))
      (Z.shiftl (get sbox_table (Z.to_nat (Z.shiftr (le_bytes key) 76))) 76).
Proof.
  intros Hk. pose proof Hk as [Hl Hr]. apply Z_ext_nat. intros n.
  rewrite shiftr_le_bytes_76 by exact Hk.
  rewrite testbit_le_bytes by (apply Forall_sbox_step; exact Hr).
  rewrite Z.lor_spec, Z.land_spec, testbit_le_bytes by exact Hr.
  destruct (Nat.ltb_spec n 76).
  - rewrite Z.ones_spec_low, Z.shiftl_spec_low by lia.
    rewrite andb_true_r, orb_false_r.
    unfold bit_of. divmod_facts n 8%nat.
    destruct (Nat.eqb_spec (n / 8) 9) as [E|E].
    + rewrite E, testbit_sbox_step_9 by lia.
      ltb_holds (n mod 8)%nat 4%nat. reflexivity.
    + rewrite get_sbox_step_other by exact E. reflexivity.
  - rewrite Z.ones_spec_high, Z.shiftl_spec by lia.
    rewrite andb_false_r. simpl orb.
    replace (Z.of_nat n - 76) with (Z.of_nat (n - 76)) by lia.
    destruct (Nat.ltb_spec n 80).
    + unfold bit_of. divmod_facts n 8%nat.
      replace (n / 8)%nat with 9%nat by lia.
      rewrite testbit_sbox_step_9 by lia.
      replace (n mod 8 <? 4)%nat with false by (symmetry; apply Nat.ltb_ge; lia).
      f_equal. f_equal. lia.
    + rewrite bit_of_overflow by (rewrite length_sbox_step; lia).
      symmetry. apply testbit_sbox_table_high. lia.
Qed.

(** X10. One call of [update_round_key] on the 80-bit register: rotate right
    by 19, pass the top nibble (bits 76..79) through the table leaving the 76
    bits below untouched, then XOR [r << 15]; the two files' functions agree. *)
Theorem update_round_key_register (key : list Z) (r : Z) :
  bytes_ok CRYPTO_KEY_SIZE key -> 0 <= r < 256 ->
  le_bytes (Scalar.update_round_key key r)
  = Z.lxor
      (Z.lor (Z.land (rotr 80 (le_bytes key) 19) (Z.ones 76))
         (Z.shiftl (get Scalar.sbox (Z.to_nat (Z.shiftr (rotr 80 (le_bytes key) 19) 76))) 76))
      (Z.shiftl r 15)
  /\ Bitsliced.update_round_key key r = Scalar.update_round_key key r.
Proof.
  unfold CRYPTO_KEY_SIZE. intros Hk Hr. split; [|reflexivity].
  pose proof Hk as [Hl Hb].
  assert (H1 : bytes_ok 10 (KeySchedule.rotate_step key)).
  { split; [rewrite length_rotate_step; exact Hl | apply Forall_rotate_step; exact Hb]. }
  assert (H2 : bytes_ok 10 (KeySchedule.sbox_step sbox_table (KeySchedule.rotate_step key))).
  { destruct H1 as [Hl1 Hb1].
    split; [rewrite length_sbox_step; exact Hl1 | apply Forall_sbox_step; exact Hb1]. }
  unfold Scalar.update_round_key, Scalar.sbox, KeySchedule.update_round_key.
  rewrite le_bytes_counter_step by assumption.
  rewrite le_bytes_sbox_step by assumption.
  rewrite le_bytes_rotate_step by assumption.
  reflexivity.
Qed.

Lemma update_round_key_register_witness :
  le_bytes (Scalar.update_round_key sample_key 17)
  = Z.lxor
      (Z.lor (Z.land (rotr 80 (le_bytes sample_key) 19) (Z.ones 76))
         (Z.shiftl
            (get Scalar.sbox (Z.to_nat (Z.shiftr (rotr 80 (le_bytes sample_key) 19) 76))) 76))
      (Z.shiftl 17 15).
Proof.
  refine (proj1 (update_round_key_register sample_key 17 _ _)).
  - apply bytes_okb_ok. vm_compute. reflexivity.
  - lia.
Defined.

(** X11. The counter step does not mask its counter to five bits: for any
    [uint8_t] value [r], bit [k] of [r] is XORed into register bit [15 + k]
    for [k] in [0,7], so a counter above 31 also flips bits 20..22, and
    [r = 0] leaves the register as it is. *)
Theorem counter_step_any_counter (key : list Z) (r n : Z) :
  bytes_ok CRYPTO_KEY_SIZE key -> 0 <= r < 256 -> 0 <= n ->
  Z.testbit (le_bytes (KeySchedule.counter_step key r)) n
  = xorb (Z.testbit (le_bytes key) n) (Z.testbit r (n - 15)).
Proof.
  unfold CRYPTO_KEY_SIZE. intros Hk Hr Hn.
  rewrite le_bytes_counter_step by assumption.
  rewrite Z.lxor_spec. f_equal.
  destruct (Z.ltb_spec n 15).
  - rewrite Z.shiftl_spec_low by lia. symmetry. apply Z.testbit_neg_r. lia.
  - apply Z.shiftl_spec. lia.
Qed.

Lemma counter_step_any_counter_witness :
  Z.testbit (le_bytes (KeySchedule.counter_step sample_key 0xE0)) 22
  = xorb (Z.testbit (le_bytes sample_key) 22) (Z.testbit 0xE0 (22 - 15)).
Proof.
  apply (counter_step_any_counter sample_key 0xE0 22).
  - apply bytes_okb_ok. vm_compute. reflexivity.
  - lia.
  - lia.
Defined.

Lemma rotate_step_inj (k1 k2 : list Z) :
  bytes_ok 10 k1 -> bytes_ok 10 k2 ->
  KeySchedule.rotate_step k1 = KeySchedule.rotate_step k2 -> k1 = k2.
Proof.
  intros H1 H2 E. apply (bytes_ext 10); [exact H1 | exact H2 |].
  intros m Hm.
  assert (Em : (((m + 61) mod 80 + 19) mod 80 =? m)%nat = true).
  { revert m Hm. apply (forall_lt (8 * 10)). vm_compute. reflexivity. }
  apply Nat.eqb_eq in Em.
  assert (Hlt : ((m + 61) mod 80 < 80)%nat) by (apply Nat.mod_upper_bound; lia).
  pose proof (bit_of_rotate_step k1 ((m + 61) mod 80) H1 Hlt) as B1.
  pose proof (bit_of_rotate_step k2 ((m + 61) mod 80) H2 Hlt) as B2.
  rewrite Em in B1, B2. rewrite <- B1, <- B2, E. reflexivity.
Qed.

(** Byte 9 after the substitution step, as a function of byte 9 before. *)
Lemma sbox_step_byte_injective x y :
  is_u8 x -> is_u8 y ->
  u8 (Z.lor (u8 (Z.land x 0x0F)) (Z.shiftl (get sbox_table (Z.to_nat (Z.shiftr x 4))) 4))
  = u8 (Z.lor (u8 (Z.land y 0x0F)) (Z.shiftl (get sbox_table (Z.to_nat (Z.shiftr y 4))) 4)) ->
  x = y.
Proof.
  intros Hx Hy E.
  set (h := fun x => u8 (Z.lor (u8 (Z.land x 0x0F))
                        (Z.shiftl (get sbox_table (Z.to_nat (Z.shiftr x 4))) 4))) in *.
  assert (H : forallb (fun y => implb (h x =? h y) (x =? y)) (map Z.of_nat (seq 0 256)) = true).
  { clear E. revert x Hx.
    apply (forall_u8 (fun x => forallb (fun y => implb (h x =? h y) (x =? y))
                                 (map Z.of_nat (seq 0 256)))).
    vm_compute. reflexivity. }
  pose proof (forall_u8 _ H y Hy) as Hxy. cbv beta in Hxy.
  change (h x = h y) in E.
  rewrite E, Z.eqb_refl in Hxy. simpl implb in Hxy. apply Z.eqb_eq. exact Hxy.
Qed.

Lemma sbox_step_inj (k1 k2 : list Z) :
  bytes_ok 10 k1 -> bytes_ok 10 k2 ->
  KeySchedule.sbox_step sbox_table k1 = KeySchedule.sbox_step sbox_table k2 -> k1 = k2.
Proof.
  intros [Hl1 Hr1] [Hl2 Hr2] E. apply list_ext; [lia|].
  intros i Hi.
  assert (Eg : get (KeySchedule.sbox_step sbox_table k1) i
               = get (KeySchedule.sbox_step sbox_table k2) i) by (rewrite E; reflexivity).
  destruct (Nat.eqb_spec i 9) as [->|Hne].
  - rewrite !get_sbox_step_9 in Eg by assumption.
    apply sbox_step_byte_injective;
      [apply Forall_get; auto; lia | apply Forall_get; auto; lia | exact Eg].
  - rewrite !get_sbox_step_other in Eg by exact Hne. exact Eg.
Qed.

Lemma u8_lxor_cancel a b c : is_u8 a -> is_u8 b -> u8 (Z.lxor a c) = u8 (Z.lxor b c) -> a = b.
Proof.
  intros Ha Hb E.
  rewrite <- (u8_lxor_twice a c Ha), <- (u8_lxor_twice b c Hb), E. reflexivity.
Qed.

Lemma counter_step_inj (k1 k2 : list Z) (r : Z) :
  bytes_ok 10 k1 -> bytes_ok 10 k2 ->
  KeySchedule.counter_step k1 r = KeySchedule.counter_step k2 r -> k1 = k2.
Proof.
  intros [Hl1 Hr1] [Hl2 Hr2] E. apply list_ext; [lia|].
  intros i Hi.
  assert (Eg : get (KeySchedule.counter_step k1 r) i = get (KeySchedule.counter_step k2 r) i)
    by (rewrite E; reflexivity).
  rewrite !get_counter_step in Eg by lia.
  destruct (Nat.eqb_spec i 1) as [->|_]; [|destruct (Nat.eqb_spec i 2) as [->|_]].
  - eapply u8_lxor_cancel; [| |exact Eg]; apply Forall_get; auto; lia.
  - eapply u8_lxor_cancel; [| |exact Eg]; apply Forall_get; auto; lia.
  - exact Eg.
Qed.

Lemma update_round_key_inj (k1 k2 : list Z) (r : Z) :
  bytes_ok 10 k1 -> bytes_ok 10 k2 ->
  KeySchedule.update_round_key sbox_table k1 r = KeySchedule.update_round_key sbox_table k2 r ->
  k1 = k2.
Proof.
  intros H1 H2 E. unfold KeySchedule.update_round_key in E.
  pose proof H1 as [Hl1 Hb1]. pose proof H2 as [Hl2 Hb2].
  assert (R1 : bytes_ok 10 (KeySchedule.rotate_step k1)).
  { split; [rewrite length_rotate_step; exact Hl1 | apply Forall_rotate_step; exact Hb1]. }
  assert (R2 : bytes_ok 10 (KeySchedule.rotate_step k2)).
  { split; [rewrite length_rotate_step; exact Hl2 | apply Forall_rotate_step; exact Hb2]. }
  apply counter_step_inj in E.
  - apply sbox_step_inj in E; [|exact R1|exact R2].
    apply rotate_step_inj in E; assumption.
  - destruct R1 as [Hl Hb].
    split; [rewrite length_sbox_step; exact Hl | apply Forall_sbox_step; exact Hb].
  - destruct R2 as [Hl Hb].
    split; [rewrite length_sbox_step; exact Hl | apply Forall_sbox_step; exact Hb].
Qed.

(** X12. A key-schedule step loses nothing: for a fixed counter, two 10-byte
    key registers are advanced by [update_round_key] to the same register
    exactly when they are the same. *)
Theorem update_round_key_injective (k1 k2 : list Z) (r : Z) :
  bytes_ok CRYPTO_KEY_SIZE k1 -> bytes_ok CRYPTO_KEY_SIZE k2 ->
  (Scalar.update_round_key k1 r = Scalar.update_round_key k2 r <-> k1 = k2).
Proof.
  unfold CRYPTO_KEY_SIZE. intros H1 H2. split.
  - apply update_round_key_inj; assumption.
  - intros ->. reflexivity.
Qed.

Lemma update_round_key_injective_witness :
  Scalar.update_round_key sample_key 3 = Scalar.update_round_key (repeat 0 10) 3
  <-> sample_key = repeat 0 10.
Proof.
  apply (update_round_key_injective sample_key (repeat 0 10) 3).
  - apply bytes_okb_ok. vm_compute. reflexivity.
  - apply bytes_okb_ok. vm_compute. reflexivity.
Defined.

Lemma scalar_add_round_key_inj (s1 s2 rk : list Z) :
  bytes_ok 8 s1 -> bytes_ok 8 s2 ->
  Scalar.add_round_key s1 rk = Scalar.add_round_key s2 rk -> s1 = s2.
Proof.
  intros [Hl1 Hr1] [Hl2 Hr2] E. apply list_ext; [lia|].
  intros i Hi.
  assert (Eg : get (Scalar.add_round_key s1 rk) i = get (Scalar.add_round_key s2 rk) i)
    by (rewrite E; reflexivity).
  rewrite !scalar_add_round_key_cellwise in Eg.
  rewrite (get_cellwise _ 8 s1), (get_cellwise _ 8 s2) in Eg by lia.
  replace (i <? 8)%nat with true in Eg by (symmetry; apply Nat.ltb_lt; lia).
  eapply u8_lxor_cancel; [| |exact Eg]; apply Forall_get; auto; lia.
Qed.

Lemma scalar_pbox_layer_inj (s1 s2 : list Z) :
  bytes_ok 8 s1 -> bytes_ok 8 s2 ->
  Scalar.pbox_layer s1 = Scalar.pbox_layer s2 -> s1 = s2.
Proof.
  intros H1 H2 E. apply (bytes_ext 8); [exact H1 | exact H2 |].
  intros m Hm. pose proof H1 as [Hl1 _]. pose proof H2 as [Hl2 _].
  pose proof (pbox_pos_lt m ltac:(lia)) as Hp.
  pose proof (bit_of_scalar_pbox_layer s1 (Scalar.pbox_pos m) Hl1 Hp) as B1.
  pose proof (bit_of_scalar_pbox_layer s2 (Scalar.pbox_pos m) Hl2 Hp) as B2.
  rewrite pbox_inv_pos in B1, B2 by lia.
  rewrite <- B1, <- B2, E. reflexivity.
Qed.

Lemma scalar_after_inj n (pt1 pt2 key : list Z) :
  bytes_ok 8 pt1 -> bytes_ok 8 pt2 ->
  scalar_after n pt1 key = scalar_after n pt2 key -> pt1 = pt2.
Proof.
  intros H1 H2. induction n as [|n IH]; intros E.
  - exact E.
  - rewrite !scalar_after_S in E.
    pose proof (bytes_ok_scalar_after n pt1 key H1) as A1.
    pose proof (bytes_ok_scalar_after n pt2 key H2) as A2.
    pose proof A1 as [L1 _]. pose proof A2 as [L2 _].
    set (rk := skipn 2 (key_after n key)) in *.
    pose proof (bytes_ok_scalar_add_round_key _ rk L1) as M1.
    pose proof (bytes_ok_scalar_add_round_key _ rk L2) as M2.
    pose proof M1 as [LM1 _]. pose proof M2 as [LM2 _].
    apply scalar_pbox_layer_inj in E;
      [|apply bytes_ok_scalar_sbox_layer; exact LM1|apply bytes_ok_scalar_sbox_layer; exact LM2].
    apply scalar_sbox_layer_inj in E; [|exact M1|exact M2].
    apply scalar_add_round_key_inj in E; [|exact A1|exact A2].
    apply IH. exact E.
Qed.

Lemma fst_scalar_crypto_func pt key :
  fst (Scalar.crypto_func pt key)
  = Scalar.add_round_key (scalar_after 31 pt key) (skipn 2 (key_after 31 key)).
Proof. rewrite scalar_crypto_func_eq. cbv beta iota delta [fst]. reflexivity. Qed.

Lemma snd_scalar_crypto_func pt key : snd (Scalar.crypto_func pt key) = key_after 31 key.
Proof. rewrite scalar_crypto_func_eq. cbv beta iota delta [snd]. reflexivity. Qed.

Lemma scalar_crypto_func_inj (pt1 pt2 key : list Z) :
  bytes_ok 8 pt1 -> bytes_ok 8 pt2 ->
  fst (Scalar.crypto_func pt1 key) = fst (Scalar.crypto_func pt2 key) -> pt1 = pt2.
Proof.
  intros H1 H2 E. rewrite (fst_scalar_crypto_func pt1), (fst_scalar_crypto_func pt2) in E.
  apply scalar_add_round_key_inj in E;
    [|apply bytes_ok_scalar_after; exact H1|apply bytes_ok_scalar_after; exact H2].
  apply scalar_after_inj in E; assumption.
Qed.

(** X13. Under a fixed key the scalar [crypto_func] is one-to-one on 8-byte
    blocks: two plaintexts encrypt to the same ciphertext exactly when they
    are the same plaintext. *)
Theorem scalar_crypto_func_injective (pt1 pt2 key : list Z) :
  bytes_ok CRYPTO_IN_SIZE pt1 -> bytes_ok CRYPTO_IN_SIZE pt2 ->
  (fst (Scalar.crypto_func pt1 key) = fst (Scalar.crypto_func pt2 key) <-> pt1 = pt2).
Proof.
  unfold CRYPTO_IN_SIZE. intros H1 H2. split.
  - apply scalar_crypto_func_inj; assumption.
  - intros ->. reflexivity.
Qed.

Lemma scalar_crypto_func_injective_witness :
  fst (Scalar.crypto_func (nth 5 sample_blocks []) sample_key)
  = fst (Scalar.crypto_func (nth 9 sample_blocks []) sample_key)
  <-> nth 5 sample_blocks [] = nth 9 sample_blocks [].
Proof.
  apply (scalar_crypto_func_injective (nth 5 sample_blocks []) (nth 9 sample_blocks [])
           sample_key).
  - apply bytes_okb_ok. vm_compute. reflexivity.
  - apply bytes_okb_ok. vm_compute. reflexivity.
Defined.

Lemma fst_bitsliced_crypto_func_from state0 pt key :
  fst (Bitsliced.crypto_func_from state0 pt key)
  = Bitsliced.unslice
      (Bitsliced.add_round_key (bitsliced_after 31 (Bitsliced.enslice pt state0) key)
         (skipn 2 (key_after 31 key))) pt.
Proof. rewrite bitsliced_crypto_func_from_eq. cbv beta iota delta [fst]. reflexivity. Qed.


Lemma length_bitsliced_after n st key :
  length st = 64%nat -> length (bitsliced_after n st key) = 64%nat.
Proof.
  intros Hl. induction n as [|n IH].
  - exact Hl.
  - rewrite bitsliced_after_S.
    rewrite length_bitsliced_pbox_layer, length_bitsliced_sbox_layer,
      length_bitsliced_add_round_key.
    exact IH.
Qed.



Lemma enslice_prior_contents pt s1 s2 :
  length s1 = 64%nat -> length s2 = 64%nat ->
  Bitsliced.enslice pt s1 = Bitsliced.enslice pt s2.
Proof.
  intros H1 H2. apply list_ext.
  - rewrite !length_enslice. lia.
  - intros i Hi. rewrite length_enslice in Hi.
    rewrite !get_enslice by lia. reflexivity.
Qed.

Lemma unslice_prior_contents st p1 p2 :
  length p1 = 256%nat -> length p2 = 256%nat ->
  Bitsliced.unslice st p1 = Bitsliced.unslice st p2.
Proof.
  intros H1 H2. apply list_ext.
  - rewrite !length_unslice. lia.
  - intros i Hi. rewrite length_unslice in Hi.
    rewrite !get_unslice by lia. reflexivity.
Qed.

(** X15. The bit-sliced [crypto_func] never reads its local [state] array
    before [enslice] has filled it: whatever 64 words the array holds on
    entry, block and key come out the same. *)
Theorem bitsliced_crypto_func_ignores_local_state (state0 pt key : list Z) :
  length state0 = CRYPTO_IN_SIZE_BIT ->
  Bitsliced.crypto_func_from state0 pt key = Bitsliced.crypto_func pt key.
Proof.
  unfold CRYPTO_IN_SIZE_BIT, Bitsliced.crypto_func. intros Hl.
  rewrite !bitsliced_crypto_func_from_eq.
  rewrite (enslice_prior_contents pt state0 (repeat 0 64)) by (auto using repeat_length).
  reflexivity.
Qed.

Lemma bitsliced_crypto_func_ignores_local_state_witness :
  Bitsliced.crypto_func_from sample_planes (concat sample_blocks) sample_key
  = Bitsliced.crypto_func (concat sample_blocks) sample_key.
Proof.
  apply (bitsliced_crypto_func_ignores_local_state sample_planes (concat sample_blocks)
           sample_key).
  reflexivity.
Defined.

Lemma block_of_concat (bs : list (list Z)) j :
  Forall len8 bs -> (j < length bs)%nat ->
  firstn 8 (skipn (8 * j) (concat bs)) = nth j bs [].
Proof.
  intros H. revert j. induction H as [|b bs Hb Hbs IH]; intros j Hj.
  - simpl in Hj. lia.
  - destruct j as [|j].
    + change (concat (b :: bs)) with (b ++ concat bs).
      change (skipn (8 * 0) (b ++ concat bs)) with (b ++ concat bs).
      change (nth 0 (b :: bs) []) with b.
      rewrite firstn_app, Hb, Nat.sub_diag, firstn_O, app_nil_r.
      rewrite <- Hb. apply firstn_all.
    + change (concat (b :: bs)) with (b ++ concat bs).
      rewrite skipn_app, Hb.
      rewrite skipn_all2 by (rewrite Hb; lia).
      replace (8 * S j - 8)%nat with (8 * j)%nat by lia.
      simpl app. simpl nth. apply IH. simpl in Hj. lia.
Qed.

Lemma length_fst_scalar_crypto_func b key :
  len8 b -> len8 (fst (Scalar.crypto_func b key)).
Proof.
  intros Hb. rewrite fst_scalar_crypto_func.
  apply bytes_ok_len8, bytes_ok_scalar_add_round_key, length_scalar_after, Hb.
Qed.

Lemma bitsliced_block_of_output blocks key j :
  length blocks = 32%nat -> Forall len8 blocks -> (j < 32)%nat ->
  firstn 8 (skipn (8 * j) (fst (Bitsliced.crypto_func (concat blocks) key)))
  = fst (Scalar.crypto_func (nth j blocks []) key).
Proof.
  intros Hn Hb Hj. unfold Bitsliced.crypto_func.
  rewrite crypto_func_from_blocks by (auto using repeat_length).
  rewrite block_of_concat.
  - apply nth_map_blocks. lia.
  - apply Forall_map_blocks. intros b Hin. apply length_fst_scalar_crypto_func.
    rewrite Forall_forall in Hb. apply Hb. exact Hin.
  - rewrite length_map. lia.
Qed.

(** X16. The lanes of the bit-sliced [crypto_func] do not influence each
    other: ciphertext block [j] of the output buffer is decided by plaintext
    block [j] and the key alone, whatever the other 31 blocks are. *)
Theorem bitsliced_lanes_independent (blocks blocks' : list (list Z)) (key : list Z) (j : nat) :
  length blocks = BITSLICE_WIDTH -> length blocks' = BITSLICE_WIDTH ->
  Forall (bytes_ok CRYPTO_IN_SIZE) blocks -> Forall (bytes_ok CRYPTO_IN_SIZE) blocks' ->
  (j < BITSLICE_WIDTH)%nat ->
  nth j blocks [] = nth j blocks' [] ->
  firstn 8 (skipn (8 * j) (fst (Bitsliced.crypto_func (concat blocks) key)))
  = firstn 8 (skipn (8 * j) (fst (Bitsliced.crypto_func (concat blocks') key))).
Proof.
  unfold BITSLICE_WIDTH, CRYPTO_IN_SIZE. intros Hn Hn' Hb Hb' Hj E.
  rewrite !bitsliced_block_of_output;
    try assumption; try (eapply Forall_impl; [|eassumption]; apply bytes_ok_len8).
  rewrite E. reflexivity.
Qed.

Lemma bitsliced_lanes_independent_witness :
  firstn 8 (skipn (8 * 5)
              (fst (Bitsliced.crypto_func (concat sample_blocks) sample_key)))
  = firstn 8 (skipn (8 * 5)
                (fst (Bitsliced.crypto_func
                        (concat (map (fun b => Scalar.pbox_layer b) (firstn 5 sample_blocks)
                                 ++ skipn 5 sample_blocks))
                        sample_key))).
Proof.
  apply (bitsliced_lanes_independent sample_blocks
           (map (fun b => Scalar.pbox_layer b) (firstn 5 sample_blocks)
            ++ skipn 5 sample_blocks) sample_key 5).
  - reflexivity.
  - reflexivity.
  - apply blocks_okb_ok. vm_compute. reflexivity.
  - apply blocks_okb_ok. vm_compute. reflexivity.
  - unfold BITSLICE_WIDTH. lia.
  - vm_compute. reflexivity.
Defined.

Lemma bitsliced_add_round_key_inj (st1 st2 rk : list Z) :
  planes_ok st1 -> planes_ok st2 ->
  Bitsliced.add_round_key st1 rk = Bitsliced.add_round_key st2 rk -> st1 = st2.
Proof.
  intros [Hl1 Hr1] [Hl2 Hr2] E. apply list_ext; [lia|].
  intros i Hi.
  assert (Eg : get (Bitsliced.add_round_key st1 rk) i = get (Bitsliced.add_round_key st2 rk) i)
    by (rewrite E; reflexivity).
  rewrite !bitsliced_add_round_key_cellwise in Eg.
  rewrite (get_cellwise _ 64 st1), (get_cellwise _ 64 st2) in Eg by lia.
  replace (i <? 64)%nat with true in Eg by (symmetry; apply Nat.ltb_lt; lia).
  rewrite <- (u32_lxor_twice (get st1 i) (key_mask rk i)) by (apply Forall_get; auto; lia).
  rewrite <- (u32_lxor_twice (get st2 i) (key_mask rk i)) by (apply Forall_get; auto; lia).
  rewrite Eg. reflexivity.
Qed.

Lemma bitsliced_pbox_layer_inj (st1 st2 : list Z) :
  length st1 = 64%nat -> length st2 = 64%nat ->
  Bitsliced.pbox_layer st1 = Bitsliced.pbox_layer st2 -> st1 = st2.
Proof.
  intros Hl1 Hl2 E. apply list_ext; [lia|].
  intros i Hi.
  pose proof (pbox_pos_lt i ltac:(lia)) as Hp.
  pose proof (get_bitsliced_pbox_layer st1 (Scalar.pbox_pos i) Hl1 Hp) as G1.
  pose proof (get_bitsliced_pbox_layer st2 (Scalar.pbox_pos i) Hl2 Hp) as G2.
  rewrite pbox_inv_pos in G1, G2 by lia.
  rewrite <- G1, <- G2, E. reflexivity.
Qed.

Lemma planes_ok_bitsliced_after n st key :
  planes_ok st -> planes_ok (bitsliced_after n st key).
Proof.
  intros Hs. destruct n as [|n].
  - exact Hs.
  - rewrite bitsliced_after_S. destruct Hs as [Hl _].
    apply planes_ok_bitsliced_pbox_layer, planes_ok_bitsliced_sbox_layer.
    rewrite length_bitsliced_add_round_key. apply length_bitsliced_after. exact Hl.
Qed.

Lemma bitsliced_after_inj n (st1 st2 key : list Z) :
  planes_ok st1 -> planes_ok st2 ->
  bitsliced_after n st1 key = bitsliced_after n st2 key -> st1 = st2.
Proof.
  intros H1 H2. induction n as [|n IH]; intros E.
  - exact E.
  - rewrite !bitsliced_after_S in E.
    pose proof (planes_ok_bitsliced_after n st1 key H1) as A1.
    pose proof (planes_ok_bitsliced_after n st2 key H2) as A2.
    pose proof A1 as [L1 _]. pose proof A2 as [L2 _].
    set (rk := skipn 2 (key_after n key)) in *.
    pose proof (planes_ok_bitsliced_add_round_key _ rk L1) as M1.
    pose proof (planes_ok_bitsliced_add_round_key _ rk L2) as M2.
    pose proof M1 as [LM1 _]. pose proof M2 as [LM2 _].
    apply bitsliced_pbox_layer_inj in E;
      [|rewrite length_bitsliced_sbox_layer; exact LM1
       |rewrite length_bitsliced_sbox_layer; exact LM2].
    apply bitsliced_sbox_layer_inj in E; [|exact M1|exact M2].
    apply bitsliced_add_round_key_inj in E; [|exact A1|exact A2].
    apply IH. exact E.
Qed.

Lemma bitsliced_crypto_func_inj (pt1 pt2 key : list Z) :
  bytes_ok 256 pt1 -> bytes_ok 256 pt2 ->
  fst (Bitsliced.crypto_func pt1 key) = fst (Bitsliced.crypto_func pt2 key) -> pt1 = pt2.
Proof.
  intros H1 H2 E. unfold Bitsliced.crypto_func in E.
  rewrite (fst_bitsliced_crypto_func_from _ pt1), (fst_bitsliced_crypto_func_from _ pt2) in E.
  pose proof H1 as [L1 _]. pose proof H2 as [L2 _].
  set (z := repeat 0 CRYPTO_IN_SIZE_BIT) in *.
  assert (Hz : length z = 64%nat) by apply repeat_length.
  set (rk := skipn 2 (key_after 31 key)) in *.
  pose proof (planes_ok_enslice pt1 z Hz) as P1.
  pose proof (planes_ok_enslice pt2 z Hz) as P2.
  pose proof (planes_ok_bitsliced_after 31 _ key P1) as A1.
  pose proof (planes_ok_bitsliced_after 31 _ key P2) as A2.
  pose proof A1 as [LA1 _]. pose proof A2 as [LA2 _].
  pose proof (planes_ok_bitsliced_add_round_key _ rk LA1) as M1.
  pose proof (planes_ok_bitsliced_add_round_key _ rk LA2) as M2.
  rewrite (unslice_prior_contents _ pt2 pt1) in E by assumption.
  apply (f_equal (fun p => Bitsliced.enslice p z)) in E.
  rewrite !enslice_unslice in E by assumption.
  apply bitsliced_add_round_key_inj in E; [|exact A1|exact A2].
  apply bitsliced_after_inj in E; [|exact P1|exact P2].
  apply (f_equal (fun s => Bitsliced.unslice s pt1)) in E.
  rewrite !unslice_enslice in E by assumption.
  exact E.
Qed.

(** X17. Under a fixed key the bit-sliced [crypto_func] is one-to-one on
    256-byte buffers: two buffers encrypt to the same buffer exactly when
    they are the same. *)
Theorem bitsliced_crypto_func_injective (pt1 pt2 key : list Z) :
  bytes_ok (CRYPTO_IN_SIZE * BITSLICE_WIDTH) pt1 ->
  bytes_ok (CRYPTO_IN_SIZE * BITSLICE_WIDTH) pt2 ->
  (fst (Bitsliced.crypto_func pt1 key) = fst (Bitsliced.crypto_func pt2 key) <-> pt1 = pt2).
Proof.
  change (CRYPTO_IN_SIZE * BITSLICE_WIDTH)%nat with 256%nat. intros H1 H2. split.
  - apply bitsliced_crypto_func_inj; assumption.
  - intros ->. reflexivity.
Qed.

Lemma bitsliced_crypto_func_injective_witness :
  fst (Bitsliced.crypto_func (concat sample_blocks) sample_key)
  = fst (Bitsliced.crypto_func (repeat 0 256) sample_key)
  <-> concat sample_blocks = repeat 0 256.
Proof.
  apply (bitsliced_crypto_func_injective (concat sample_blocks) (repeat 0 256) sample_key).
  - apply bytes_okb_ok. vm_compute. reflexivity.
  - apply bytes_okb_ok. vm_compute. reflexivity.
Defined.

Lemma key_after_inj n (k1 k2 : list Z) :
  bytes_ok 10 k1 -> bytes_ok 10 k2 -> key_after n k1 = key_after n k2 -> k1 = k2.
Proof.
  intros H1 H2. induction n as [|n IH]; intros E.
  - exact E.
  - rewrite !key_after_S in E.
    apply update_round_key_inj in E; [|apply bytes_ok_key_after; exact H1
                                      |apply bytes_ok_key_after; exact H2].
    apply IH. exact E.
Qed.

(** X18. The key buffer that [crypto_func] leaves behind determines the key
    it was given: two 10-byte keys are advanced to the same final register
    exactly when they are the same key. *)
Theorem final_key_determines_initial_key (pt1 pt2 key1 key2 : list Z) :
  bytes_ok CRYPTO_KEY_SIZE key1 -> bytes_ok CRYPTO_KEY_SIZE key2 ->
  (snd (Scalar.crypto_func pt1 key1) = snd (Scalar.crypto_func pt2 key2) <-> key1 = key2).
Proof.
  unfold CRYPTO_KEY_SIZE. intros H1 H2. rewrite !snd_scalar_crypto_func. split.
  - apply key_after_inj; assumption.
  - intros ->. reflexivity.
Qed.

Lemma final_key_determines_initial_key_witness :
  snd (Scalar.crypto_func (nth 5 sample_blocks []) sample_key)
  = snd (Scalar.crypto_func (nth 9 sample_blocks []) (repeat 0 10))
  <-> sample_key = repeat 0 10.
Proof.
  apply (final_key_determines_initial_key (nth 5 sample_blocks []) (nth 9 sample_blocks [])
           sample_key (repeat 0 10)).
  - apply bytes_okb_ok. vm_compute. reflexivity.
  - apply bytes_okb_ok. vm_compute. reflexivity.
Defined.

Lemma sim_unique blocks a b :
  sim blocks a -> sim blocks b -> Forall is_u32 a -> Forall is_u32 b -> a = b.
Proof.
  intros [Hla Ha] [Hlb Hb] Hra Hrb.
  apply planes_ext; [split; assumption | split; assumption |].
  intros i j Hi Hj. rewrite Ha, Hb by assumption. reflexivity.
Qed.

Lemma len8_of_bytes_ok blocks : Forall (bytes_ok 8) blocks -> Forall len8 blocks.
Proof. intros H. eapply Forall_impl; [|exact H]. apply bytes_ok_len8. Qed.

(** X19. Key mixing commutes with the transpose: on 32 blocks of 8 bytes, the
    bit-sliced [add_round_key] applied to the ensliced buffer is the ensliced
    buffer of the blocks each mixed by the scalar [add_round_key]. *)
Theorem add_round_key_commutes_with_enslice (blocks : list (list Z)) (roundkey state_bs : list Z) :
  length blocks = BITSLICE_WIDTH -> Forall (bytes_ok CRYPTO_IN_SIZE) blocks ->
  length state_bs = CRYPTO_IN_SIZE_BIT ->
  Bitsliced.add_round_key (Bitsliced.enslice (concat blocks) state_bs) roundkey
  = Bitsliced.enslice
      (concat (map (fun b => Scalar.add_round_key b roundkey) blocks)) state_bs.
Proof.
  unfold BITSLICE_WIDTH, CRYPTO_IN_SIZE, CRYPTO_IN_SIZE_BIT. intros Hn Hb Hs.
  pose proof (len8_of_bytes_ok blocks Hb) as Hb8.
  apply (sim_unique (map (fun b => Scalar.add_round_key b roundkey) blocks)).
  - apply sim_add_round_key; [exact Hn | exact Hb8 |]. apply sim_enslice; assumption.
  - apply sim_enslice; [rewrite length_map; exact Hn | | exact Hs].
    apply Forall_map_blocks. intros b Hin. apply bytes_ok_len8, bytes_ok_scalar_add_round_key.
    rewrite Forall_forall in Hb8. apply Hb8. exact Hin.
  - apply planes_ok_bitsliced_add_round_key. rewrite length_enslice. exact Hs.
  - apply planes_ok_enslice. exact Hs.
Qed.

Lemma add_round_key_commutes_with_enslice_witness :
  Bitsliced.add_round_key (Bitsliced.enslice (concat sample_blocks) (repeat 0 64))
    (skipn 2 sample_key)
  = Bitsliced.enslice
      (concat (map (fun b => Scalar.add_round_key b (skipn 2 sample_key)) sample_blocks))
      (repeat 0 64).
Proof.
  apply (add_round_key_commutes_with_enslice sample_blocks (skipn 2 sample_key) (repeat 0 64)).
  - reflexivity.
  - apply blocks_okb_ok. vm_compute. reflexivity.
  - reflexivity.
Defined.

(** X20. The substitution layer commutes with the transpose: the bit-sliced
    [sbox_layer] of the ensliced buffer is the ensliced buffer of the blocks
    each substituted by the scalar, table-driven [sbox_layer]. *)
Theorem sbox_layer_commutes_with_enslice (blocks : list (list Z)) (state_bs : list Z) :
  length blocks = BITSLICE_WIDTH -> Forall (bytes_ok CRYPTO_IN_SIZE) blocks ->
  length state_bs = CRYPTO_IN_SIZE_BIT ->
  Bitsliced.sbox_layer (Bitsliced.enslice (concat blocks) state_bs)
  = Bitsliced.enslice (concat (map Scalar.sbox_layer blocks)) state_bs.
Proof.
  unfold BITSLICE_WIDTH, CRYPTO_IN_SIZE, CRYPTO_IN_SIZE_BIT. intros Hn Hb Hs.
  pose proof (len8_of_bytes_ok blocks Hb) as Hb8.
  apply (sim_unique (map Scalar.sbox_layer blocks)).
  - apply sim_sbox_layer; [exact Hn | exact Hb |]. apply sim_enslice; assumption.
  - apply sim_enslice; [rewrite length_map; exact Hn | | exact Hs].
    apply Forall_map_blocks. intros b Hin. apply bytes_ok_len8, bytes_ok_scalar_sbox_layer.
    rewrite Forall_forall in Hb8. apply Hb8. exact Hin.
  - apply planes_ok_bitsliced_sbox_layer. rewrite length_enslice. exact Hs.
  - apply planes_ok_enslice. exact Hs.
Qed.

Lemma sbox_layer_commutes_with_enslice_witness :
  Bitsliced.sbox_layer (Bitsliced.enslice (concat sample_blocks) (repeat 0 64))
  = Bitsliced.enslice (concat (map Scalar.sbox_layer sample_blocks)) (repeat 0 64).
Proof.
  apply (sbox_layer_commutes_with_enslice sample_blocks (repeat 0 64)).
  - reflexivity.
  - apply blocks_okb_ok. vm_compute. reflexivity.
  - reflexivity.
Defined.

(** X21. The permutation layer commutes with the transpose: moving whole
    planes with the bit-sliced [pbox_layer] is the ensliced buffer of the
    blocks each permuted bit by bit with the scalar [pbox_layer]. *)
Theorem pbox_layer_commutes_with_enslice (blocks : list (list Z)) (state_bs : list Z) :
  length blocks = BITSLICE_WIDTH -> Forall (bytes_ok CRYPTO_IN_SIZE) blocks ->
  length state_bs = CRYPTO_IN_SIZE_BIT ->
  Bitsliced.pbox_layer (Bitsliced.enslice (concat blocks) state_bs)
  = Bitsliced.enslice (concat (map Scalar.pbox_layer blocks)) state_bs.
Proof.
  unfold BITSLICE_WIDTH, CRYPTO_IN_SIZE, CRYPTO_IN_SIZE_BIT. intros Hn Hb Hs.
  pose proof (len8_of_bytes_ok blocks Hb) as Hb8.
  apply (sim_unique (map Scalar.pbox_layer blocks)).
  - apply sim_pbox_layer; [exact Hn | exact Hb8 |]. apply sim_enslice; assumption.
  - apply sim_enslice; [rewrite length_map; exact Hn | | exact Hs].
    apply Forall_map_blocks. intros b Hin. apply bytes_ok_len8, bytes_ok_scalar_pbox_layer.
    rewrite Forall_forall in Hb8. apply Hb8. exact Hin.
  - apply planes_ok_bitsliced_pbox_layer, planes_ok_enslice. exact Hs.
  - apply planes_ok_enslice. exact Hs.
Qed.

Lemma pbox_layer_commutes_with_enslice_witness :
  Bitsliced.pbox_layer (Bitsliced.enslice (concat sample_blocks) (repeat 0 64))
  = Bitsliced.enslice (concat (map Scalar.pbox_layer sample_blocks)) (repeat 0 64).
Proof.
  apply (pbox_layer_commutes_with_enslice sample_blocks (repeat 0 64)).
  - reflexivity.
  - apply blocks_okb_ok. vm_compute. reflexivity.
  - reflexivity.
Defined.
